(** * A filesystem server: path policy and exact-text edit

    Shallow embedding of [mcp_server.py] (the [SecurityConfig] class and the
    tools [read_file], [write_file], [create_file], [delete_file],
    [edit_file], [list_directory], [create_directory], [move_file] and
    [search_in_files]); [void_mcp_server.py] carries the same
    [SecurityConfig] and the same tools, [edit_file] apart.

    Modelling conventions.
    - Python [str] is a Rocq [string]; a character stands for a code point
      below 256, encoded in UTF-8 on one byte (below 128) or two.
    - The host is POSIX: the separator is [/], the only anchor is the root
      directory, and a canonical path is the list of its segments.
    - The filesystem is a finite map from canonical paths to nodes (regular
      file, directory, symbolic link); every node is readable and writable.
      A regular file holds text, kept as it decodes before line endings are
      translated, or bytes that do not decode, of which only the number is
      kept.
    - A tool returns its message string; the tools that write also return
      the new filesystem.  Exceptions are values of [result], printed by
      [str_exn].
    - [search_in_files] takes the directory scan [rglob] as a parameter. *)

From Stdlib Require Import NArith Lia String Ascii DecimalString.
From stdpp Require Import base option list gmap strings sorting.

Open Scope string_scope.
Open Scope list_scope.
Open Scope nat_scope.

(** ** Python string primitives *)

Definition LF : ascii := "010"%char.
Definition CR : ascii := "013"%char.

(** [s.startswith(pre)] *)
Definition str_startswith (s pre : string) : bool := String.prefix pre s.

(** [s.endswith(suf)]: some tail of [s] is [suf]. *)
Fixpoint str_endswith (s suf : string) : bool :=
  String.eqb s suf ||
  match s with
  | EmptyString => false
  | String _ s' => str_endswith s' suf
  end.

(** [old in s] *)
Fixpoint str_contains (old s : string) : bool :=
  String.prefix old s ||
  match s with
  | EmptyString => false
  | String _ s' => str_contains old s'
  end.

(** The scan behind [str.count] for a non-empty needle: [skip] characters of
    the match just found are still to be passed over. *)
Fixpoint count_scan (old : string) (skip : nat) (s : string) : nat :=
  match s with
  | EmptyString => 0
  | String _ s' =>
      match skip with
      | S k => count_scan old k s'
      | O =>
          if String.prefix old s
          then S (count_scan old (String.length old - 1) s')
          else count_scan old 0 s'
      end
  end.

(** [s.count(old)]; the empty needle is found before every character and at
    the end. *)
Definition str_count (s old : string) : nat :=
  match old with
  | EmptyString => S (String.length s)
  | _ => count_scan old 0 s
  end.

(** Has the replacement budget run out?  [None] is "no limit". *)
Definition spent (limit : option nat) : bool :=
  match limit with
  | Some O => true
  | _ => false
  end.

Definition charge (limit : option nat) : option nat :=
  match limit with
  | Some n => Some (Nat.pred n)
  | None => None
  end.

(** The scan behind [str.replace] for a non-empty needle. *)
Fixpoint replace_scan (old new : string) (limit : option nat) (skip : nat)
    (s : string) : string :=
  match s with
  | EmptyString => EmptyString
  | String c s' =>
      match skip with
      | S k => replace_scan old new limit k s'
      | O =>
          if negb (spent limit) && String.prefix old s
          then new +:+ replace_scan old new (charge limit)
                        (String.length old - 1) s'
          else String c (replace_scan old new limit 0 s')
      end
  end.

(** [str.replace] with an empty needle: [new] goes before every character and
    at the end, as long as the budget lasts. *)
Fixpoint interleave (new : string) (limit : option nat) (s : string) : string :=
  if spent limit then s
  else
    match s with
    | EmptyString => new
    | String c s' => new +:+ String c (interleave new (charge limit) s')
    end.

(** [s.replace(old, new)] ([limit = None]) and [s.replace(old, new, n)]
    ([limit = Some n]). *)
Definition str_replace (s old new : string) (limit : option nat) : string :=
  match old with
  | EmptyString => interleave new limit s
  | _ => replace_scan old new limit 0 s
  end.

(** [sep.join(parts)] *)
Fixpoint str_join (sep : string) (parts : list string) : string :=
  match parts with
  | [] => EmptyString
  | [x] => x
  | x :: rest => x +:+ sep +:+ str_join sep rest
  end.

(** [s.split(sep)] for a one-character separator. *)
Fixpoint str_split (sep : ascii) (s : string) : list string :=
  match s with
  | EmptyString => [EmptyString]
  | String c s' =>
      if Ascii.eqb c sep then EmptyString :: str_split sep s'
      else
        match str_split sep s' with
        | [] => [String c EmptyString]
        | x :: rest => String c x :: rest
        end
  end.

(** [str(n)] for a natural number. *)
Definition str_of_nat (n : nat) : string :=
  NilZero.string_of_uint (Nat.to_uint n).

Definition str_of_N (n : N) : string :=
  NilZero.string_of_uint (N.to_uint n).

(** [str.isspace] on one character: the whitespace code points below 256. *)
Definition is_space (c : ascii) : bool :=
  let n := N_of_ascii c in
  ((9 <=? n) && (n <=? 13) || (28 <=? n) && (n <=? 32) ||
   (n =? 133) || (n =? 160))%N.

(** [str.lower] on one character: ASCII and Latin-1 capitals move up by 32. *)
Definition lower_char (c : ascii) : ascii :=
  let n := N_of_ascii c in
  if ((65 <=? n) && (n <=? 90) ||
      (192 <=? n) && (n <=? 222) && negb (n =? 215))%N
  then ascii_of_N (n + 32)
  else c.

Fixpoint str_lower (s : string) : string :=
  match s with
  | EmptyString => EmptyString
  | String c s' => String (lower_char c) (str_lower s')
  end.

Fixpoint str_lstrip (s : string) : string :=
  match s with
  | EmptyString => EmptyString
  | String c s' => if is_space c then str_lstrip s' else s
  end.

Fixpoint str_rstrip (s : string) : string :=
  match s with
  | EmptyString => EmptyString
  | String c s' =>
      match str_rstrip s' with
      | EmptyString => if is_space c then EmptyString else String c EmptyString
      | r => String c r
      end
  end.

(** [s.strip()] *)
Definition str_strip (s : string) : string := str_rstrip (str_lstrip s).

(** [s[1:]] *)
Definition str_tail (s : string) : string :=
  match s with
  | EmptyString => EmptyString
  | String _ s' => s'
  end.

(** ** Text files on disk *)

(** What a text-mode [open(..., 'r')] does to line endings when no [newline]
    argument is given: a carriage return, alone or followed by a line feed,
    is read as one line feed. *)
Fixpoint universal_newlines (s : string) : string :=
  match s with
  | EmptyString => EmptyString
  | String c s' =>
      if Ascii.eqb c CR then
        String LF
          match s' with
          | String c' s'' =>
              if Ascii.eqb c' LF then universal_newlines s''
              else universal_newlines s'
          | EmptyString => EmptyString
          end
      else String c (universal_newlines s')
  end.

(** [f.readlines()] on decoded text: lines keep their terminator. *)
Fixpoint readlines (s : string) : list string :=
  match s with
  | EmptyString => []
  | String c s' =>
      if Ascii.eqb c LF then String c EmptyString :: readlines s'
      else
        match readlines s' with
        | [] => [String c EmptyString]
        | l :: ls => String c l :: ls
        end
  end.

(** Number of bytes of the UTF-8 encoding. *)
Fixpoint utf8_size (s : string) : N :=
  match s with
  | EmptyString => 0
  | String c s' => (if (N_of_ascii c <? 128)%N then 1 else 2) + utf8_size s'
  end.

(** ** Paths and the filesystem *)

(** A canonical path: the segments below the root directory. *)
Abbreviation path := (list string).

Inductive filedata :=
| Text (s : string)        (* valid UTF-8; [s] is the decoded text *)
| Binary (size : N).       (* bytes that do not decode *)

Inductive node :=
| File (d : filedata)
| Dir
| Link (target : string).

Record OS := { cwd : path; tree : gmap path node }.

Definition with_tree (os : OS) (t : gmap path node) : OS :=
  {| cwd := cwd os; tree := t |}.

(** Exceptions the modelled calls can raise. *)
Inductive exn :=
| EmbeddedNull
| SymlinkLoop (p : string)
| FileNotFound (p : string)
| FileExists (p : string)
| NotADirectory (p : string)
| IsADirectory (p : string)
| NotInSubpath (p other : string)
| UnicodeDecodeError
| GlobError (msg : string).

(** [str(e)], worded as CPython 3.12 does. *)
Definition str_exn (e : exn) : string :=
  match e with
  | EmbeddedNull => "embedded null byte"
  | SymlinkLoop p => "Symlink loop from '" +:+ p +:+ "'"
  | FileNotFound p => "[Errno 2] No such file or directory: '" +:+ p +:+ "'"
  | FileExists p => "[Errno 17] File exists: '" +:+ p +:+ "'"
  | NotADirectory p => "[Errno 20] Not a directory: '" +:+ p +:+ "'"
  | IsADirectory p => "[Errno 21] Is a directory: '" +:+ p +:+ "'"
  | NotInSubpath p other =>
      "'" +:+ p +:+ "' is not in the subpath of '" +:+ other +:+ "'"
  | UnicodeDecodeError => "'utf-8' codec can't decode bytes"
  | GlobError msg => msg
  end.

Inductive result (A : Type) :=
| Ok (a : A)
| Raise (e : exn).
Arguments Ok {A} a.
Arguments Raise {A} e.

#[export] Instance result_ret : MRet result := λ A a, Ok a.
#[export] Instance result_bind : MBind result := λ A B f m,
  match m with
  | Ok a => f a
  | Raise e => Raise e
  end.

(** [str(p)] for an absolute path. *)
Fixpoint str_segments (p : path) : string :=
  match p with
  | [] => EmptyString
  | seg :: rest => "/" +:+ seg +:+ str_segments rest
  end.

Definition str_path (p : path) : string :=
  match p with
  | [] => "/"
  | _ => str_segments p
  end.

(** [str(p)] for a relative path: the empty one prints as a dot. *)
Definition str_rel (p : path) : string :=
  match p with
  | [] => "."
  | _ => str_join "/" p
  end.

(** What [Path(s)] keeps of [s]: whether it is absolute, and its segments,
    with empty and single-dot segments dropped. *)
Definition kept_segment (seg : string) : bool :=
  negb (String.eqb seg "") && negb (String.eqb seg ".").

Definition path_parts (s : string) : bool * list string :=
  (str_startswith s "/",
   filter (λ seg, kept_segment seg = true) (str_split "/" s)).

(** [p.relative_to(root)] on parts: the parts left after [root]. *)
Fixpoint strip_parts (root p : path) : option path :=
  match root, p with
  | [], _ => Some p
  | r :: root', x :: p' => if String.eqb r x then strip_parts root' p' else None
  | _ :: _, [] => None
  end.

(** [abs_path.relative_to(other)] where [other] is a string. *)
Definition relative_to (abs_path : path) (other : string) : result path :=
  let '(absolute, parts) := path_parts other in
  match strip_parts parts abs_path with
  | Some rel => if absolute then Ok rel
                else Raise (NotInSubpath (str_path abs_path) other)
  | None => Raise (NotInSubpath (str_path abs_path) other)
  end.

(** [Path.resolve()]: walk the segments from the root or the working
    directory, dropping [.], stepping up on [..] and following symbolic
    links; [follow] continues after a link has been read. *)
Fixpoint walk_segments (follow : path → list string → result path)
    (t : gmap path node) (cur : path) (todo : list string) : result path :=
  match todo with
  | [] => Ok cur
  | seg :: rest =>
      if String.eqb seg "" || String.eqb seg "." then
        walk_segments follow t cur rest
      else if String.eqb seg ".." then
        walk_segments follow t (removelast cur) rest
      else
        match t !! (cur ++ [seg]) with
        | Some (Link target) =>
            follow (if str_startswith target "/" then [] else cur)
                   (str_split "/" target ++ rest)
        | _ => walk_segments follow t (cur ++ [seg]) rest
        end
  end.

(** A loop of links makes [Path.resolve()] fail; here at most [fuel] links
    are followed in one resolution, and a loop is reported beyond that. *)
Fixpoint walk (fuel : nat) (t : gmap path node) (cur : path)
    (todo : list string) : result path :=
  match fuel with
  | O => Raise (SymlinkLoop (str_path cur))
  | S fuel' => walk_segments (walk fuel' t) t cur todo
  end.

Definition MAXSYMLINKS : nat := 40.

Definition NUL : ascii := "000"%char.

Definition resolve (os : OS) (s : string) : result path :=
  if str_contains (String NUL EmptyString) s then Raise EmbeddedNull
  else walk (S MAXSYMLINKS) (tree os)
            (if str_startswith s "/" then [] else cwd os)
            (str_split "/" s).

(** [p.exists()] and [p.is_file()] on a resolved path. *)
Definition path_exists (os : OS) (p : path) : bool :=
  match tree os !! p with
  | Some _ => true
  | None => false
  end.

Definition is_file (os : OS) (p : path) : bool :=
  match tree os !! p with
  | Some (File _) => true
  | _ => false
  end.

(** [p.parent], [p.name], [p.suffix] *)
Definition parent (p : path) : path := removelast p.

Definition name (p : path) : string := List.last p EmptyString.

(** The tail of [s] from its last dot on, if it has a dot. *)
Fixpoint from_last_dot (s : string) : option string :=
  match s with
  | EmptyString => None
  | String c s' =>
      match from_last_dot s' with
      | Some t => Some t
      | None => if Ascii.eqb c "." then Some s else None
      end
  end.

(** [i = name.rfind('.')]; the suffix is [name[i:]] when [0 < i < len - 1]. *)
Definition suffix (p : path) : string :=
  match name p with
  | EmptyString => EmptyString
  | String _ rest =>
      match from_last_dot rest with
      | Some t => if Nat.eqb (String.length t) 1 then EmptyString else t
      | None => EmptyString
      end
  end.

(** ** SecurityConfig *)

Record SecurityConfig := {
  allowed_root : string;
  blocked_patterns : list string;
  allowed_extensions : list string;
  max_file_size : N
}.

Definition default_blocked_patterns : list string :=
  [".git"; ".env"; ".ssh"; "node_modules"; "__pycache__"; ".venv"; "venv";
   "*.key"; "*.pem"; "*.p12"; "id_rsa"; "id_ed25519"].

Definition default_allowed_extensions : list string :=
  [".py"; ".js"; ".ts"; ".jsx"; ".tsx";
   ".java"; ".c"; ".cpp"; ".h"; ".hpp";
   ".go"; ".rs"; ".rb"; ".php";
   ".html"; ".css"; ".scss"; ".json";
   ".md"; ".txt"; ".yaml"; ".yml";
   ".toml"; ".ini"; ".cfg"; ".xml"].

(** The keys [load_config] reads from [mcp_config.json]. *)
Record config_file := {
  cf_allowed_root : option string;
  cf_additional_blocked : list string;
  cf_additional_extensions : list string
}.

(** [SecurityConfig.__init__] followed by [load_config]: [file] is the parsed
    configuration when the file exists and parses, [getcwd] the working
    directory of the process. *)
Definition load_config (file : option config_file) (getcwd : string)
    : SecurityConfig :=
  let configured :=
    match file with
    | Some f => cf_allowed_root f
    | None => None
    end in
  {| allowed_root :=
       match configured with
       | Some (String c r) => String c r
       | _ => getcwd
       end;
     blocked_patterns :=
       default_blocked_patterns ++
       match file with Some f => cf_additional_blocked f | None => [] end;
     allowed_extensions :=
       default_allowed_extensions ++
       match file with Some f => cf_additional_extensions f | None => [] end;
     max_file_size := 10 * 1024 * 1024 |}.

(** One turn of the blocked-pattern loop: the reason returned when [pattern]
    rejects the path. *)
Definition blocked_by (path_str pattern : string) : option string :=
  if str_startswith pattern "*." then
    if str_endswith path_str (str_tail pattern)
    then Some ("Blocked file extension: " +:+ pattern)
    else None
  else
    if existsb (String.eqb pattern) (str_split "/" path_str)
    then Some ("Blocked pattern: " +:+ pattern)
    else None.

Fixpoint first_blocked (path_str : string) (patterns : list string)
    : option string :=
  match patterns with
  | [] => None
  | pattern :: rest =>
      match blocked_by path_str pattern with
      | Some reason => Some reason
      | None => first_blocked path_str rest
      end
  end.

Definition is_path_allowed (cfg : SecurityConfig) (os : OS) (path : string)
    : bool * string :=
  match
    abs_path ← resolve os path;
    root ← resolve os (allowed_root cfg);
    mret (abs_path, root)
  with
  | Raise e => (false, "Path validation error: " +:+ str_exn e)
  | Ok (abs_path, root) =>
      match strip_parts root abs_path with
      | None => (false, "Path outside allowed directory: " +:+ str_path root)
      | Some _ =>
          match first_blocked (str_path abs_path) (blocked_patterns cfg) with
          | Some reason => (false, reason)
          | None =>
              if is_file os abs_path || negb (path_exists os abs_path) then
                let ext := str_lower (suffix abs_path) in
                if negb (String.eqb ext "") &&
                   negb (existsb (String.eqb ext) (allowed_extensions cfg))
                then (false, "File extension not allowed: " +:+ ext)
                else (true, "OK")
              else (true, "OK")
          end
      end
  end.

(** [os.path.getsize].  The tools ask for the size of regular files only;
    a directory is given the size of one block, and a resolved path names no
    link (lemma [resolve_not_link]). *)
Definition getsize (os : OS) (p : path) : result N :=
  match tree os !! p with
  | Some (File (Text s)) => Ok (utf8_size s)
  | Some (File (Binary size)) => Ok size
  | Some Dir => Ok 4096%N
  | Some (Link _) => Raise (SymlinkLoop (str_path p))
  | None => Raise (FileNotFound (str_path p))
  end.

Definition check_file_size (cfg : SecurityConfig) (os : OS) (p : path)
    : bool * string :=
  match getsize os p with
  | Raise e => (false, "Size check error: " +:+ str_exn e)
  | Ok size =>
      if (max_file_size cfg <? size)%N
      then (false, "File too large: " +:+ str_of_N size +:+ " bytes (max: "
                   +:+ str_of_N (max_file_size cfg) +:+ ")")
      else (true, "OK")
  end.

(** ** Disk actions: a state and error monad over [OS] *)

Definition io (A : Type) : Type := OS → OS * result A.

#[export] Instance io_ret : MRet io := λ A a os, (os, Ok a).
#[export] Instance io_bind : MBind io := λ A B f m os,
  match m os with
  | (os', Ok a) => f a os'
  | (os', Raise e) => (os', Raise e)
  end.

(** Look at the disk without changing it. *)
Definition gets {A : Type} (f : OS → A) : io A := λ os, (os, Ok (f os)).

Definition try_ {A : Type} (f : OS → result A) : io A := λ os, (os, f os).

(** The [try ... except Exception as e: return f"...{str(e)}"] frame of a
    tool. *)
Definition attempt (body : io string) (handler : exn → string) (os : OS)
    : OS * string :=
  match body os with
  | (os', Ok msg) => (os', msg)
  | (os', Raise e) => (os', handler e)
  end.

(** [d.mkdir(parents=True, exist_ok=True)], from the root down: missing
    directories are created, and anything else in the way is an error. *)
Fixpoint mkdir_from (t : gmap path node) (done : path) (todo : list string)
    : result (gmap path node) :=
  match todo with
  | [] => Ok t
  | seg :: rest =>
      let d := done ++ [seg] in
      match t !! d with
      | None => mkdir_from (<[d := Dir]> t) d rest
      | Some Dir => mkdir_from t d rest
      | Some _ =>
          match rest with
          | [] => Raise (FileExists (str_path d))
          | _ => Raise (NotADirectory (str_path d))
          end
      end
  end.

Definition mkdir_parents (d : path) : io unit := λ os,
  match mkdir_from (tree os) [] d with
  | Ok t => (with_tree os t, Ok ())
  | Raise e => (os, Raise e)
  end.

(** [with open(p, 'w', encoding='utf-8') as f: f.write(content)]; the
    callers have created or found the parent directory. *)
Definition open_write (p : path) (content : string) : io unit := λ os,
  match tree os !! p with
  | Some Dir => (os, Raise (IsADirectory (str_path p)))
  | Some (Link _) => (os, Raise (SymlinkLoop (str_path p)))
  | _ => (with_tree os (<[p := File (Text content)]> (tree os)), Ok ())
  end.

(** [with open(p, 'r', encoding='utf-8') as f: f.read()] *)
Definition open_read (os : OS) (p : path) : result string :=
  match tree os !! p with
  | Some (File (Text s)) => Ok (universal_newlines s)
  | Some (File (Binary _)) => Raise UnicodeDecodeError
  | Some Dir => Raise (IsADirectory (str_path p))
  | Some (Link _) => Raise (SymlinkLoop (str_path p))
  | None => Raise (FileNotFound (str_path p))
  end.

(** ** The tools *)

Definition read_file (cfg : SecurityConfig) (os : OS) (path : string)
    : string :=
  let '(allowed, reason) := is_path_allowed cfg os path in
  if negb allowed then "Access denied: " +:+ reason
  else
    match
      abs_path ← resolve os path;
      if negb (path_exists os abs_path) then
        mret ("File not found: " +:+ path)
      else if negb (is_file os abs_path) then
        mret ("Not a file: " +:+ path)
      else
        let '(size_ok, size_reason) := check_file_size cfg os abs_path in
        if negb size_ok then mret size_reason
        else open_read os abs_path
    with
    | Ok content => content
    | Raise UnicodeDecodeError =>
        "File appears to be binary or uses unsupported encoding: " +:+ path
    | Raise e => "Error reading file: " +:+ str_exn e
    end.

Definition write_file (cfg : SecurityConfig) (path content : string)
    : OS → OS * string := λ os,
  let '(allowed, reason) := is_path_allowed cfg os path in
  if negb allowed then (os, "Access denied: " +:+ reason)
  else
    attempt
      (abs_path ← try_ (λ os, resolve os path);
       _ ← mkdir_parents (parent abs_path);
       existed ← gets (λ os, path_exists os abs_path);
       _ ← open_write abs_path content;
       let action := if existed : bool then "Updated" else "Created" in
       rel_path ← try_ (λ _, relative_to abs_path (allowed_root cfg));
       mret (action +:+ " file: " +:+ str_rel rel_path))
      (λ e, "Error writing file: " +:+ str_exn e)
      os.

Definition create_file (cfg : SecurityConfig) (path content : string)
    : OS → OS * string := λ os,
  let '(allowed, reason) := is_path_allowed cfg os path in
  if negb allowed then (os, "Access denied: " +:+ reason)
  else
    attempt
      (abs_path ← try_ (λ os, resolve os path);
       existed ← gets (λ os, path_exists os abs_path);
       if existed : bool then
         mret ("File already exists: " +:+ path
               +:+ ". Use write_file to update it.")
       else
         _ ← mkdir_parents (parent abs_path);
         _ ← open_write abs_path content;
         rel_path ← try_ (λ _, relative_to abs_path (allowed_root cfg));
         mret ("Created file: " +:+ str_rel rel_path))
      (λ e, "Error creating file: " +:+ str_exn e)
      os.

Definition ambiguous_message (count : nat) (file_path : string) : string :=
  "Error: old_string appears " +:+ str_of_nat count +:+ " times in "
  +:+ file_path +:+ ". "
  +:+ "Use replace_all=True to replace all occurrences, or provide "
  +:+ "more context to make old_string unique.".

Definition edit_file (cfg : SecurityConfig)
    (file_path old_string new_string : string) (replace_all : bool)
    : OS → OS * string := λ os,
  let '(allowed, reason) := is_path_allowed cfg os file_path in
  if negb allowed then (os, "Access denied: " +:+ reason)
  else
    attempt
      (abs_path ← try_ (λ os, resolve os file_path);
       found ← gets (λ os, path_exists os abs_path);
       if negb found then mret ("File not found: " +:+ file_path)
       else
       regular ← gets (λ os, is_file os abs_path);
       if negb regular then mret ("Not a file: " +:+ file_path)
       else
       '(size_ok, size_reason) ← gets (λ os, check_file_size cfg os abs_path);
       if negb size_ok then mret size_reason
       else
       loaded ← gets (λ os, open_read os abs_path);
       match loaded with
       | Raise UnicodeDecodeError =>
           mret ("File appears to be binary or uses unsupported encoding: "
                 +:+ file_path)
       | Raise e => try_ (λ _, Raise e)
       | Ok content =>
           if negb (str_contains old_string content) then
             mret ("Error: old_string not found in " +:+ file_path)
           else if negb replace_all
                   && Nat.ltb 1 (str_count content old_string) then
             mret (ambiguous_message (str_count content old_string) file_path)
           else
             let '(new_content, replacements) :=
               if replace_all
               then (str_replace content old_string new_string None,
                     str_count content old_string)
               else (str_replace content old_string new_string (Some 1), 1)
             in
             _ ← open_write abs_path new_content;
             rel_path ← try_ (λ _, relative_to abs_path (allowed_root cfg));
             mret ("Successfully replaced " +:+ str_of_nat replacements
                   +:+ " occurrence(s) in " +:+ str_rel rel_path)
       end)
      (λ e, "Error editing file: " +:+ str_exn e)
      os.

(** ** Search *)

Definition NL : string := String LF EmptyString.

(** The loop over [enumerate(lines, 1)]: one entry per line that contains the
    term, case-insensitively. *)
Fixpoint scan_lines (search_term rel_path : string) (i : nat)
    (lines : list string) : list string :=
  match lines with
  | [] => []
  | line :: rest =>
      let later := scan_lines search_term rel_path (S i) rest in
      if str_contains (str_lower search_term) (str_lower line)
      then (rel_path +:+ ":" +:+ str_of_nat i +:+ ": " +:+ str_strip line)
           :: later
      else later
  end.

(** The body of the loop over the files found: what one file adds to
    [results].  A file that fails the policy, is not a regular file, or
    cannot be read or decoded adds nothing. *)
Definition search_one (cfg : SecurityConfig) (os : OS) (search_path : path)
    (search_term : string) (file_path : path) : list string :=
  if negb (fst (is_path_allowed cfg os (str_path file_path))) then []
  else
    match resolve os (str_path file_path) with
    | Ok target =>
        match tree os !! target, strip_parts search_path file_path with
        | Some (File (Text s)), Some rel_path =>
            scan_lines search_term (str_rel rel_path) 1
                       (readlines (universal_newlines s))
        | _, _ => []
        end
    | Raise _ => []
    end.

Section Search.

(** [search_path.rglob(file_pattern)]: the paths under [search_path] whose
    name matches the pattern, in the order the directory scan yields them,
    or the error raised for a pattern [pathlib] refuses. *)
Variable rglob : OS → path → string → result (list path).

Definition collect_results (cfg : SecurityConfig) (os : OS)
    (search_term directory file_pattern : string) : result (list string) :=
  search_path ← resolve os directory;
  found ← rglob os search_path file_pattern;
  mret (flat_map (search_one cfg os search_path search_term) found).

Definition search_in_files (cfg : SecurityConfig) (os : OS)
    (search_term directory file_pattern : string) : string :=
  let '(allowed, reason) := is_path_allowed cfg os directory in
  if negb allowed then "Access denied: " +:+ reason
  else
    match collect_results cfg os search_term directory file_pattern with
    | Raise e => "Error searching files: " +:+ str_exn e
    | Ok [] => "No matches found for '" +:+ search_term +:+ "'"
    | Ok results =>
        let count := length results in
        let limited := take 50 results in
        let output := str_join NL limited in
        if Nat.ltb 50 count
        then output +:+ NL +:+ NL +:+ "... and "
             +:+ str_of_nat (count - 50) +:+ " more results"
        else output
    end.

End Search.


(** ** The other tools: delete, create a directory, move, list *)

(** [p.unlink()]: the entry goes, whether a file or a link; a directory is
    refused. *)
Definition unlink (p : path) : io unit := λ os,
  match tree os !! p with
  | Some Dir => (os, Raise (IsADirectory (str_path p)))
  | Some _ => (with_tree os (delete p (tree os)), Ok ())
  | None => (os, Raise (FileNotFound (str_path p)))
  end.

Definition delete_file (cfg : SecurityConfig) (path : string)
    : OS → OS * string := λ os,
  let '(allowed, reason) := is_path_allowed cfg os path in
  if negb allowed then (os, "Access denied: " +:+ reason)
  else
    attempt
      (abs_path ← try_ (λ os, resolve os path);
       found ← gets (λ os, path_exists os abs_path);
       if negb found then mret ("File not found: " +:+ path)
       else
       regular ← gets (λ os, is_file os abs_path);
       if negb regular then
         mret ("Not a file (use delete_directory for directories): " +:+ path)
       else
       _ ← unlink abs_path;
       mret ("Deleted file: " +:+ path))
      (λ e, "Error deleting file: " +:+ str_exn e)
      os.

(** [os.mkdir(p)]: one directory, whose parent must be there. *)
Definition os_mkdir (p : path) : io unit := λ os,
  match tree os !! p with
  | Some _ => (os, Raise (FileExists (str_path p)))
  | None =>
      match tree os !! parent p with
      | Some Dir => (with_tree os (<[p := Dir]> (tree os)), Ok ())
      | Some _ => (os, Raise (NotADirectory (str_path p)))
      | None => (os, Raise (FileNotFound (str_path p)))
      end
  end.

(** [p.mkdir(parents=True, exist_ok=False)]: try the directory itself, and
    when its parent is missing create the parents and try again. *)
Definition mkdir_new (p : path) : io unit := λ os,
  match os_mkdir p os with
  | (_, Raise (FileNotFound _)) =>
      (_ ← mkdir_parents (parent p); os_mkdir p) os
  | done => done
  end.

Definition create_directory (cfg : SecurityConfig) (path : string)
    : OS → OS * string := λ os,
  let '(allowed, reason) := is_path_allowed cfg os path in
  if negb allowed then (os, "Access denied: " +:+ reason)
  else
    attempt
      (abs_path ← try_ (λ os, resolve os path);
       found ← gets (λ os, path_exists os abs_path);
       if found : bool then mret ("Directory already exists: " +:+ path)
       else
       _ ← mkdir_new abs_path;
       rel_path ← try_ (λ _, relative_to abs_path (allowed_root cfg));
       mret ("Created directory: " +:+ str_rel rel_path))
      (λ e, "Error creating directory: " +:+ str_exn e)
      os.

(** Where the entry at [q] goes when [src] becomes [dst]: entries at and
    below [src] move, the others stay. *)
Definition rekey (src dst q : path) : path :=
  match strip_parts src q with
  | Some below => dst ++ below
  | None => q
  end.

(** [src.rename(dst)] as [move_file] calls it, with [dst] missing and its
    parent in place.  [None] stands for the refusal to move a directory
    below itself. *)
Definition os_rename (src dst : path) (t : gmap path node)
    : option (gmap path node) :=
  match t !! src with
  | Some Dir =>
      if bool_decide (is_Some (strip_parts src dst)) then None
      else Some (list_to_map
                   (map (λ entry, (rekey src dst entry.1, entry.2))
                        (map_to_list t)))
  | Some n => Some (<[dst := n]> (delete src t))
  | None => Some t
  end.

(** The rename as a disk action: [false] reports the refusal. *)
Definition rename (src dst : path) : io bool := λ os,
  match os_rename src dst (tree os) with
  | Some t => (with_tree os t, Ok true)
  | None => (os, Ok false)
  end.

Definition move_file (cfg : SecurityConfig) (source destination : string)
    : OS → OS * string := λ os,
  let '(src_allowed, src_reason) := is_path_allowed cfg os source in
  if negb src_allowed then (os, "Source access denied: " +:+ src_reason)
  else
  let '(dst_allowed, dst_reason) := is_path_allowed cfg os destination in
  if negb dst_allowed then (os, "Destination access denied: " +:+ dst_reason)
  else
    attempt
      (src_path ← try_ (λ os, resolve os source);
       dst_path ← try_ (λ os, resolve os destination);
       src_found ← gets (λ os, path_exists os src_path);
       if negb src_found then mret ("Source file not found: " +:+ source)
       else
       dst_found ← gets (λ os, path_exists os dst_path);
       if dst_found : bool then
         mret ("Destination already exists: " +:+ destination)
       else
       _ ← mkdir_parents (parent dst_path);
       moved ← rename src_path dst_path;
       if moved : bool then
         mret ("Moved: " +:+ source +:+ " to " +:+ destination)
       else
         mret ("Error moving file: [Errno 22] Invalid argument: '"
               +:+ str_path src_path +:+ "' -> '"
               +:+ str_path dst_path +:+ "'"))
      (λ e, "Error moving file: " +:+ str_exn e)
      os.

(** [os.stat(p)] and what [is_file], [is_dir] and [stat] make of a path
    that is not resolved: the node the path leads to, links followed.
    Every directory on the way must be there, where [resolve] walks on. *)
Fixpoint stat_segments (follow : path → list string → option node)
    (t : gmap path node) (cur : path) (todo : list string) : option node :=
  match todo with
  | [] => t !! cur
  | seg :: rest =>
      if String.eqb seg "" || String.eqb seg "." then
        stat_segments follow t cur rest
      else if String.eqb seg ".." then
        stat_segments follow t (removelast cur) rest
      else
        match t !! (cur ++ [seg]) with
        | Some (Link target) =>
            if String.eqb target "" then None
            else follow (if str_startswith target "/" then [] else cur)
                        (str_split "/" target ++ rest)
        | Some Dir => stat_segments follow t (cur ++ [seg]) rest
        | Some (File d) =>
            match rest with
            | [] => Some (File d)
            | _ => None
            end
        | None => None
        end
  end.

Fixpoint stat_walk (fuel : nat) (t : gmap path node) (cur : path)
    (todo : list string) : option node :=
  match fuel with
  | O => None
  | S fuel' => stat_segments (stat_walk fuel' t) t cur todo
  end.

Definition stat (os : OS) (p : path) : option node :=
  stat_walk (S MAXSYMLINKS) (tree os) (parent p) [name p].

Definition stat_is_file (os : OS) (p : path) : bool :=
  match stat os p with
  | Some (File _) => true
  | _ => false
  end.

Definition stat_is_dir (os : OS) (p : path) : bool :=
  match stat os p with
  | Some Dir => true
  | _ => false
  end.

(** [p.stat().st_size], asked for regular files. *)
Definition st_size (os : OS) (p : path) : N :=
  match stat os p with
  | Some (File (Text s)) => utf8_size s
  | Some (File (Binary size)) => size
  | _ => 4096
  end.

(** [p.is_dir()] on a resolved path. *)
Definition is_dir (os : OS) (p : path) : bool :=
  match tree os !! p with
  | Some Dir => true
  | _ => false
  end.

(** [p.iterdir()]: the entries one segment below [p], in the order of the
    directory scan. *)
Definition child_of (p q : path) : bool :=
  match strip_parts p q with
  | Some [_] => true
  | _ => false
  end.

Definition iterdir (os : OS) (p : path) : list path :=
  filter (λ q, child_of p q = true) (map fst (map_to_list (tree os))).

(** The order of paths: that of the lists of their segments, strings
    compared by code point. *)
Fixpoint parts_leb (p q : path) : bool :=
  match p, q with
  | [], _ => true
  | _ :: _, [] => false
  | x :: p', y :: q' =>
      if String.eqb x y then parts_leb p' q' else String.ltb x y
  end.

Definition parts_le (p q : path) : Prop := parts_leb p q = true.

#[export] Instance parts_le_dec : RelDecision parts_le :=
  λ p q, decide (parts_leb p q = true).

(** [sorted(paths)] *)
Definition sorted (paths : list path) : list path :=
  merge_sort parts_le paths.

(** The text the loops over the sorted entries add. *)
Definition str_concat (lines : list string) : string :=
  foldr (λ line result, line +:+ result) "" lines.

Definition list_directory (cfg : SecurityConfig) (os : OS) (path : string)
    : string :=
  let '(allowed, reason) := is_path_allowed cfg os path in
  if negb allowed then "Access denied: " +:+ reason
  else
    match
      abs_path ← resolve os path;
      if negb (path_exists os abs_path) then
        mret ("Directory not found: " +:+ path)
      else if negb (is_dir os abs_path) then
        mret ("Not a directory: " +:+ path)
      else
        let items := iterdir os abs_path in
        let files := filter (λ f, stat_is_file os f = true) items in
        let dirs := filter (λ d, stat_is_dir os d = true) items in
        rel_path ← relative_to abs_path (allowed_root cfg);
        let result := "Directory: " +:+ str_rel rel_path +:+ NL +:+ NL in
        let result :=
          match dirs with
          | [] => result
          | _ => result +:+ "Directories:" +:+ NL
                 +:+ str_concat (map (λ d, "  " +:+ name d +:+ NL)
                                     (sorted dirs))
          end in
        let result :=
          match files with
          | [] => result
          | _ => result +:+ NL +:+ "Files:" +:+ NL
                 +:+ str_concat
                       (map (λ f, "  " +:+ name f +:+ " ("
                                  +:+ str_of_N (st_size os f) +:+ " bytes)"
                                  +:+ NL)
                            (sorted files))
          end in
        let result :=
          match dirs, files with
          | [], [] => result +:+ "(empty directory)" +:+ NL
          | _, _ => result
          end in
        mret result
    with
    | Ok msg => msg
    | Raise e => "Error listing directory: " +:+ str_exn e
    end.
(** * Notions used in the statements *)

(** [scanned old s pieces]: reading [s] from the left and taking, each time,
    the first copy of [old] in what remains cuts [s] into [pieces], the text
    before, between and after the copies taken. *)
Inductive scanned (old : string) : string → list string → Prop :=
| scanned_rest s :
    str_contains old s = false → scanned old s [s]
| scanned_match p r pieces :
    (∀ u v, p +:+ old +:+ r = u +:+ old +:+ v →
            (String.length p ≤ String.length u)%nat) →
    scanned old r pieces →
    scanned old (p +:+ old +:+ r) (p :: pieces).

(** The characters of a string, one string each. *)
Fixpoint explode (s : string) : list string :=
  match s with
  | EmptyString => []
  | String c s' => String c EmptyString :: explode s'
  end.



(** A path segment: a string without separator. *)
Definition plain (seg : string) : Prop := str_split "/" seg = [seg].

(** The configured root is written the way [resolve] returns it. *)
Definition root_is_canonical (cfg : SecurityConfig) (os : OS) : Prop :=
  resolve os (allowed_root cfg) = Ok (path_parts (allowed_root cfg)).2 ∧
  (path_parts (allowed_root cfg)).1 = true.

(** Two trees hold the same symbolic links. *)
Definition same_links (t t' : gmap path node) : Prop :=
  ∀ q target, t !! q = Some (Link target) ↔ t' !! q = Some (Link target).


(** [write_file] reports success. *)
Definition write_succeeded (msg : string) : Prop :=
  ∃ rel, msg = "Created file: " +:+ rel ∨ msg = "Updated file: " +:+ rel.

(** ** A small workspace for the examples *)

Definition ws : path := ["home"; "user"; "ws"].

Definition demo_tree : gmap path node :=
  list_to_map
    [([], Dir); (["home"], Dir); (["home"; "user"], Dir); (ws, Dir);
     (["etc"], Dir); (["etc"; "passwd"], File (Text "root:x:0:0"));
     (ws ++ ["a.txt"],
      File (Text ("x = 1" +:+ NL +:+ "x = 2" +:+ NL +:+ "x = 3")));
     (ws ++ ["aaa.txt"], File (Text "aaa"));
     (ws ++ ["out"], Link "/etc");
     (ws ++ [".git"], Dir);
     (ws ++ [".git"; "config"], File (Text "[core]"));
     (ws ++ ["src"], Dir);
     (ws ++ ["src"; "lib.d"], Dir);
     (ws ++ ["src"; "m.py"],
      File (Text ("import os" +:+ NL +:+ "print(OS)" +:+ NL)))].

Definition demo_os : OS := {| cwd := ws; tree := demo_tree |}.

Definition demo_cfg : SecurityConfig := load_config None "/home/user/ws".

(** [doubled k s] is [2^k] copies of [s]. *)
Fixpoint doubled (k : nat) (s : string) : string :=
  match k with
  | O => s
  | S k' => doubled k' s +:+ doubled k' s
  end.

(** Sixteen mebibytes of text. *)
Definition big_content : string := doubled 24 "a".

(** The decision of [is_path_allowed] once the path and the root are
    resolved to [abs_path] and [root]. *)
Definition decision (cfg : SecurityConfig) (os : OS) (abs_path root : path)
    : bool * string :=
  match strip_parts root abs_path with
  | None => (false, "Path outside allowed directory: " +:+ str_path root)
  | Some _ =>
      match first_blocked (str_path abs_path) (blocked_patterns cfg) with
      | Some reason => (false, reason)
      | None =>
          if is_file os abs_path || negb (path_exists os abs_path) then
            let ext := str_lower (suffix abs_path) in
            if negb (String.eqb ext "") &&
               negb (existsb (String.eqb ext) (allowed_extensions cfg))
            then (false, "File extension not allowed: " +:+ ext)
            else (true, "OK")
          else (true, "OK")
      end
  end.

(** The file named [file_path] passes the policy, resolves to [abs_path],
    is an existing regular file within the size limit, and is read as
    [content]. *)
Definition editable (cfg : SecurityConfig) (os : OS) (file_path : string)
    (abs_path : path) (content : string) : Prop :=
  (is_path_allowed cfg os file_path).1 = true ∧
  resolve os file_path = Ok abs_path ∧
  (check_file_size cfg os abs_path).1 = true ∧
  open_read os abs_path = Ok content.

(** The disk after [content] has been written to the file at [abs_path]. *)
Definition with_file (os : OS) (abs_path : path) (content : string) : OS :=
  with_tree os (<[abs_path := File (Text content)]> (tree os)).

(** [n] lines, each reading [line]. *)
Fixpoint repeat_line (line : string) (n : nat) : string :=
  match n with
  | O => EmptyString
  | S n' => line +:+ NL +:+ repeat_line line n'
  end.

(** The workspace with one more file, sixty lines long. *)
Definition long_os : OS :=
  with_tree demo_os
    (<[ws ++ ["src"; "long.py"] := File (Text (repeat_line "pass" 60))]>
       demo_tree).

(** A directory scan that yields every path below the directory, whatever
    the pattern. *)
Definition rglob_all (os : OS) (search_path : path) (file_pattern : string)
    : result (list path) :=
  Ok (filter (λ p, is_Some (strip_parts search_path p))
             (map fst (map_to_list (tree os)))).

(** No path down to [p], [p] included, is a symbolic link. *)
Definition link_free (t : gmap path node) (p : path) : Prop :=
  ∀ q target, q `prefix_of` p → t !! q ≠ Some (Link target).

(** A segment as the kernel stores it: no separator, no NUL, and not one of
    the names with a meaning of their own. *)
Definition proper (seg : string) : Prop :=
  plain seg ∧ str_contains (String NUL "") seg = false ∧
  seg ≠ "" ∧ seg ≠ "." ∧ seg ≠ "..".

(** The workspace reached through a link [/w], and a configuration whose
    root is spelled that way. *)
Definition linked_os : OS :=
  with_tree demo_os (<[["w"] := Link "/home/user/ws"]> demo_tree).

Definition linked_cfg : SecurityConfig :=
  load_config
    (Some {| cf_allowed_root := Some "/w";
             cf_additional_blocked := [];
             cf_additional_extensions := [] |})
    "/home/user/ws".

(** ** Notions used for the other tools *)

(** The directories above and including [d], the root left out. *)
Fixpoint ancestors_from (done : path) (todo : list string) : list path :=
  match todo with
  | [] => []
  | seg :: rest => (done ++ [seg]) :: ancestors_from (done ++ [seg]) rest
  end.

Definition ancestors (d : path) : list path := ancestors_from [] d.

(** Every directory on the way down to [d], and [d] itself, is there. *)
Definition dirs_down_to (t : gmap path node) (d : path) : Prop :=
  Forall (λ q, t !! q = Some Dir) (ancestors d).

(** The size [os.path.getsize] reports for a regular file. *)
Definition data_size (d : filedata) : N :=
  match d with
  | Text s => utf8_size s
  | Binary size => size
  end.

(** [create_directory] reports success. *)
Definition directory_created (msg : string) : Prop :=
  ∃ rel, msg = "Created directory: " +:+ rel.


Definition CRLF : string := String CR (String LF "").

(** The demonstration disk with one more file, which has the line endings
    of DOS. *)
Definition dos_os : OS :=
  with_file demo_os (ws ++ ["dos.txt"])
            ("one" +:+ CRLF +:+ "two" +:+ CRLF).

(** [entry] reports a line of the file at [file_path] that holds
    [search_term], whatever the case of the letters: the file passes the
    policy and is a text file, the entry names it relative to
    [search_path], numbers the line from one and shows it stripped. *)
Definition reports_line (cfg : SecurityConfig) (os : OS) (search_path : path)
    (search_term : string) (file_path : path) (entry : string) : Prop :=
  ∃ target text rel_path i line,
    (is_path_allowed cfg os (str_path file_path)).1 = true ∧
    resolve os (str_path file_path) = Ok target ∧
    tree os !! target = Some (File (Text text)) ∧
    strip_parts search_path file_path = Some rel_path ∧
    readlines (universal_newlines text) !! i = Some line ∧
    str_contains (str_lower search_term) (str_lower line) = true ∧
    entry = str_rel rel_path +:+ ":" +:+ str_of_nat (S i) +:+ ": "
            +:+ str_strip line.


(** The demonstration disk with a file of secrets at the root of the
    workspace. *)
Definition env_os : OS := with_file demo_os (ws ++ [".env"]) "KEY=1".


(** The tree has no entry at [d] or below it. *)
Definition nothing_below (t : gmap path node) (d : path) : Prop :=
  ∀ q n, t !! q = Some n → strip_parts d q = None.

(** The demonstration disk with a file of secrets in the source directory. *)
Definition secret_os : OS := with_file demo_os (ws ++ ["src"; ".env"]) "KEY=1".
(** * Facts about the string primitives *)

(** Unfold the plumbing of a tool body. *)
Ltac run_io := unfold attempt, mbind, io_bind, mret, io_ret, try_, gets.

Lemma str_app_cons c s t : String c s +:+ t = String c (s +:+ t).
Proof. reflexivity. Qed.

Lemma str_app_nil_l t : "" +:+ t = t.
Proof. reflexivity. Qed.

Lemma str_app_nil_r s : s +:+ "" = s.
Proof. induction s as [|c s IH]; [done|]. by rewrite str_app_cons, IH. Qed.


Lemma str_length_app s t :
  String.length (s +:+ t) = String.length s + String.length t.
Proof.
  induction s as [|c s IH]; [done|]. rewrite str_app_cons. simpl. by rewrite IH.
Qed.

Lemma str_prefix_nil s : String.prefix "" s = true.
Proof. by destruct s. Qed.

Lemma str_prefix_cons c1 s1 c2 s2 :
  String.prefix (String c1 s1) (String c2 s2)
  = if ascii_dec c1 c2 then String.prefix s1 s2 else false.
Proof. reflexivity. Qed.

Lemma str_prefix_app old r : String.prefix old (old +:+ r) = true.
Proof.
  induction old as [|c old IH]; [apply str_prefix_nil|].
  rewrite str_app_cons, str_prefix_cons. by destruct (ascii_dec c c).
Qed.

Lemma str_prefix_inv old s :
  String.prefix old s = true → ∃ r, s = old +:+ r.
Proof.
  revert s. induction old as [|c old IH]; intros s H.
  - by exists s.
  - destruct s as [|c' s]; [done|].
    rewrite str_prefix_cons in H. destruct (ascii_dec c c') as [->|]; [|done].
    destruct (IH _ H) as [r ->]. by exists r.
Qed.

(** [old in s] says that [s] can be cut around a copy of [old]. *)
Lemma str_contains_true old s :
  str_contains old s = true ↔ ∃ u v, s = u +:+ old +:+ v.
Proof.
  split.
  - induction s as [|c s IH]; cbn [str_contains]; intros H.
    + apply orb_true_iff in H as [H|H]; [|done].
      apply str_prefix_inv in H as [r ->]. by exists "", r.
    + apply orb_true_iff in H as [H|H].
      * apply str_prefix_inv in H as [r ->]. by exists "", r.
      * destruct (IH H) as (u & v & ->). by exists (String c u), v.
  - intros (u & v & ->). induction u as [|c u IH].
    + rewrite str_app_nil_l. destruct (old +:+ v) eqn:E; cbn [str_contains];
        rewrite <- E, str_prefix_app; done.
    + rewrite str_app_cons. cbn [str_contains]. rewrite IH. apply orb_true_r.
Qed.

Lemma str_contains_nil s : str_contains "" s = true.
Proof. apply str_contains_true. by exists "", s. Qed.

Lemma str_contains_cons_false old c s :
  str_contains old (String c s) = false →
  String.prefix old (String c s) = false ∧ str_contains old s = false.
Proof. cbn [str_contains]. intros H. by apply orb_false_iff in H. Qed.

(** *** Scanning past the rest of a match *)

Lemma count_scan_skip old u r :
  count_scan old (String.length u) (u +:+ r) = count_scan old 0 r.
Proof.
  induction u as [|c u IH]; [by destruct r|].
  rewrite str_app_cons. simpl. apply IH.
Qed.

Lemma replace_scan_skip old new limit u r :
  replace_scan old new limit (String.length u) (u +:+ r)
  = replace_scan old new limit 0 r.
Proof.
  induction u as [|c u IH]; [by destruct r|].
  rewrite str_app_cons. simpl. apply IH.
Qed.


(** One step of the two scans at a match and away from one. *)
Lemma count_scan_match a o r :
  count_scan (String a o) 0 (String a o +:+ r)
  = S (count_scan (String a o) 0 r).
Proof.
  rewrite str_app_cons. cbn [count_scan]. rewrite <- str_app_cons, str_prefix_app.
  cbn [String.length]. replace (S (String.length o) - 1) with (String.length o) by lia.
  by rewrite count_scan_skip.
Qed.

Lemma replace_scan_match a o new limit r :
  spent limit = false →
  replace_scan (String a o) new limit 0 (String a o +:+ r)
  = new +:+ replace_scan (String a o) new (charge limit) 0 r.
Proof.
  intros Hl. rewrite str_app_cons. cbn [replace_scan].
  rewrite <- str_app_cons, str_prefix_app, Hl. cbn [negb andb String.length].
  replace (S (String.length o) - 1) with (String.length o) by lia.
  by rewrite replace_scan_skip.
Qed.

Lemma count_scan_miss old c s :
  String.prefix old (String c s) = false →
  count_scan old 0 (String c s) = count_scan old 0 s.
Proof. intros H. cbn [count_scan]. by rewrite H. Qed.

Lemma replace_scan_miss old new limit c s :
  String.prefix old (String c s) = false →
  replace_scan old new limit 0 (String c s)
  = String c (replace_scan old new limit 0 s).
Proof. intros H. cbn [replace_scan]. by rewrite H, andb_false_r. Qed.

Lemma str_join_cons sep x y rest :
  str_join sep (x :: y :: rest) = x +:+ sep +:+ str_join sep (y :: rest).
Proof. reflexivity. Qed.

(** *** The scan cuts the text at the copies it takes *)

Lemma scan_pieces a o s :
  ∃ pieces,
    scanned (String a o) s pieces ∧
    length pieces = S (count_scan (String a o) 0 s) ∧
    ∀ new, replace_scan (String a o) new None 0 s = str_join new pieces.
Proof.
  remember (String.length s) as n eqn:Hn. revert s Hn.
  induction n as [n IH] using lt_wf_ind. intros s Hn.
  destruct s as [|c s].
  { exists [""]. split; [by constructor|done]. }
  destruct (String.prefix (String a o) (String c s)) eqn:Hp.
  - apply str_prefix_inv in Hp as [r Hr].
    destruct (IH (String.length r)) with (s := r) as (ps & Hs & Hl & Hrep).
    { rewrite Hn, Hr, str_length_app. cbn [String.length]. lia. }
    { done. }
    exists ("" :: ps). rewrite Hr. split; [|split].
    + change (String a o +:+ r) with ("" +:+ String a o +:+ r).
      constructor; [|done]. intros u v _. cbn [String.length]. lia.
    + rewrite count_scan_match. cbn [length]. by rewrite Hl.
    + intros new. rewrite replace_scan_match by done. cbn [charge].
      rewrite Hrep. destruct ps as [|q ps]; [done|].
      by rewrite str_join_cons.
  - destruct (IH (String.length s)) with (s := s) as (ps & Hs & Hl & Hrep).
    { rewrite Hn. cbn [String.length]. lia. }
    { done. }
    rewrite count_scan_miss by done.
    destruct Hs as [s Hno|p r ps Hleft Hs].
    + exists [String c s]. split; [|split].
      * constructor. cbn [str_contains]. by rewrite Hp, Hno.
      * done.
      * intros new. rewrite replace_scan_miss by done. by rewrite Hrep.
    + exists (String c p :: ps). split; [|split].
      * rewrite <- str_app_cons. constructor; [|done].
        intros [|c' u] v E.
        -- rewrite str_app_nil_l, str_app_cons in E. by rewrite E, str_prefix_app in Hp.
        -- rewrite (str_app_cons c), (str_app_cons c') in E. injection E as _ E.
           apply Hleft in E. cbn [String.length]. lia.
      * done.
      * intros new. rewrite replace_scan_miss by done. rewrite Hrep.
        destruct ps as [|q ps]; [by inversion Hs|].
        by rewrite !str_join_cons, str_app_cons.
Qed.

(** The pieces, joined by the needle, give the text back. *)
Lemma scanned_join old s pieces :
  scanned old s pieces → s = str_join old pieces.
Proof.
  induction 1 as [s _|p r ps _ Hs IH]; [done|].
  destruct ps as [|q ps]; [by inversion Hs|].
  by rewrite str_join_cons, <- IH.
Qed.

(** With an unlimited budget the empty needle is replaced around every
    character. *)
Lemma interleave_pieces new s :
  interleave new None s = str_join new ("" :: explode s ++ [""]).
Proof.
  assert (H : ∀ s, interleave new None s
                   = new +:+ str_join new (explode s ++ [""])).
  { clear s. induction s as [|c s IH]; cbn [interleave spent charge].
    - by rewrite str_app_nil_r.
    - rewrite IH. cbn [explode app].
      destruct (explode s ++ [""]) as [|q qs] eqn:E.
      + by destruct (explode s).
      + by rewrite str_join_cons. }
  rewrite H. destruct (explode s ++ [""]) as [|q qs] eqn:E.
  - by destruct (explode s).
  - by rewrite str_join_cons.
Qed.

Lemma explode_join s : str_join "" ("" :: explode s ++ [""]) = s.
Proof.
  assert (H : ∀ s, str_join "" (explode s ++ [""]) = s).
  { clear s. induction s as [|c s IH]; [done|].
    cbn [explode app]. destruct (explode s ++ [""]) as [|q qs] eqn:E.
    - by destruct (explode s).
    - rewrite str_join_cons, IH. done. }
  destruct (explode s ++ [""]) as [|q qs] eqn:E.
  - by destruct (explode s).
  - rewrite str_join_cons, <- E, H. done.
Qed.

Lemma length_explode s : length (explode s) = String.length s.
Proof. induction s as [|c s IH]; [done|]. cbn. by rewrite IH. Qed.


(** A needle that occurs is counted at least once. *)
Lemma count_scan_pos a o s :
  str_contains (String a o) s = true → 0 < count_scan (String a o) 0 s.
Proof.
  destruct (scan_pieces a o s) as (ps & Hs & Hl & _). intros Hc.
  destruct Hs as [s Hno|p r ps _ Hs]; [congruence|].
  destruct ps as [|q ps]; [by inversion Hs|]. cbn [length] in Hl. lia.
Qed.

Lemma count_scan_zero a o s :
  str_contains (String a o) s = false → count_scan (String a o) 0 s = 0.
Proof.
  induction s as [|c s IH]; [done|]. intros H.
  apply str_contains_cons_false in H as [Hp Hc].
  rewrite count_scan_miss by done. auto.
Qed.

Lemma str_count_contains s old :
  0 < str_count s old → str_contains old s = true.
Proof.
  destruct old as [|a o]; [intros _; apply str_contains_nil|].
  cbn [str_count]. intros H.
  destruct (str_contains (String a o) s) eqn:E; [done|].
  rewrite count_scan_zero in H by done. lia.
Qed.

(** * Facts about paths *)

Lemma strip_parts_Some root p rel :
  strip_parts root p = Some rel ↔ p = root ++ rel.
Proof.
  revert p. induction root as [|r root IH]; intros p; cbn [strip_parts].
  - split; [by intros [= ->]|by intros ->].
  - destruct p as [|x p]; [done|].
    destruct (String.eqb_spec r x) as [->|Hne].
    + rewrite IH. split; [by intros ->|by intros [= ->]].
    + split; [done|]. intros [= -> _]. done.
Qed.


Lemma str_split_nonempty sep s : str_split sep s ≠ [].
Proof.
  destruct s as [|c s]; [done|]. cbn [str_split].
  destruct (Ascii.eqb c sep); [done|]. by destruct (str_split sep s).
Qed.



Lemma str_split_plain_inv sep c x :
  str_split sep (String c x) = [String c x] →
  Ascii.eqb c sep = false ∧ str_split sep x = [x].
Proof.
  cbn [str_split]. destruct (Ascii.eqb c sep); [done|]. intros H.
  split; [done|]. destruct (str_split sep x) as [|y ys] eqn:E.
  - by apply str_split_nonempty in E.
  - by injection H as -> ->.
Qed.

Lemma str_split_app_sep sep x rest :
  str_split sep x = [x] →
  str_split sep (x +:+ String sep rest) = x :: str_split sep rest.
Proof.
  induction x as [|c x IH]; intros Hx.
  - rewrite str_app_nil_l. cbn [str_split]. by rewrite Ascii.eqb_refl.
  - apply str_split_plain_inv in Hx as [Hc Hx].
    rewrite str_app_cons. cbn [str_split]. by rewrite Hc, IH.
Qed.

Lemma str_split_join (p : path) :
  Forall plain p → p ≠ [] → str_split "/" (str_join "/" p) = p.
Proof.
  induction p as [|seg rest IH]; [done|]. intros Hp _.
  inversion Hp as [|? ? Hseg Hrest]; subst.
  destruct rest as [|y ys]; [done|].
  rewrite str_join_cons.
  change ("/" +:+ str_join "/" (y :: ys))
    with (String "/" (str_join "/" (y :: ys))).
  rewrite str_split_app_sep by done. by rewrite IH.
Qed.

Lemma str_segments_join (p : path) :
  p ≠ [] → str_segments p = "/" +:+ str_join "/" p.
Proof.
  induction p as [|seg rest IH]; [done|]. intros _.
  cbn [str_segments]. destruct rest as [|y ys].
  - cbn. by rewrite str_app_nil_r.
  - by rewrite IH, str_join_cons.
Qed.

(** Splitting the printed form of a canonical path gives its segments back,
    after the empty string that stands before the leading separator. *)
Lemma str_split_str_path (p : path) :
  Forall plain p → p ≠ [] → str_split "/" (str_path p) = "" :: p.
Proof.
  intros Hp Hne. destruct p as [|seg rest]; [done|]. unfold str_path.
  rewrite str_segments_join by done.
  change ("/" +:+ ?s) with (String "/" s). cbn [str_split].
  rewrite Ascii.eqb_refl. by rewrite str_split_join.
Qed.

(** *** Resolution yields proper segments *)





(** *** Resolution only looks at the links *)

Lemma same_links_refl t : same_links t t.
Proof. by intros q target. Qed.

Lemma same_links_trans t1 t2 t3 :
  same_links t1 t2 → same_links t2 t3 → same_links t1 t3.
Proof.
  intros H12 H23 q target. specialize (H12 q target).
  specialize (H23 q target). tauto.
Qed.

Lemma same_links_insert t (p : path) n :
  (∀ target, t !! p ≠ Some (Link target)) →
  (∀ target, n ≠ Link target) →
  same_links t (<[p := n]> t).
Proof.
  intros Hold Hnew q target. destruct (decide (p = q)) as [<-|Hne].
  - rewrite lookup_insert_eq. split; [by intros ?%Hold|].
    intros [= E]. by apply Hnew in E.
  - by rewrite lookup_insert_ne.
Qed.

Lemma walk_segments_same_links follow follow' t t' :
  same_links t t' →
  (∀ cur todo, follow cur todo = follow' cur todo) →
  ∀ todo cur,
    walk_segments follow t cur todo = walk_segments follow' t' cur todo.
Proof.
  intros Hlinks Hfollow. induction todo as [|seg rest IH]; intros cur; [done|].
  cbn [walk_segments]. rewrite !IH.
  destruct (_ || _); [done|]. destruct (String.eqb seg ".."); [done|].
  destruct (t !! (cur ++ [seg])) as [n|] eqn:E.
  - destruct n as [d| |target].
    + destruct (t' !! (cur ++ [seg])) as [[d'| |target']|] eqn:E'; try done.
      apply Hlinks in E'. congruence.
    + destruct (t' !! (cur ++ [seg])) as [[d'| |target']|] eqn:E'; try done.
      apply Hlinks in E'. congruence.
    + apply Hlinks in E. by rewrite E.
  - destruct (t' !! (cur ++ [seg])) as [[d'| |target']|] eqn:E'; try done.
    apply Hlinks in E'. congruence.
Qed.

Lemma walk_same_links fuel t t' cur todo :
  same_links t t' → walk fuel t cur todo = walk fuel t' cur todo.
Proof.
  intros Hlinks. revert cur todo. induction fuel as [|fuel IH]; [done|].
  intros cur todo. cbn [walk]. by apply walk_segments_same_links.
Qed.

Lemma resolve_same_links os os' s :
  cwd os = cwd os' → same_links (tree os) (tree os') →
  resolve os s = resolve os' s.
Proof.
  intros Hcwd Hlinks. unfold resolve. rewrite Hcwd.
  destruct (str_contains _ s); [done|]. by apply walk_same_links.
Qed.

(** *** Creating the parent directories *)

Lemma mkdir_from_same_links t done todo t' :
  mkdir_from t done todo = Ok t' → same_links t t'.
Proof.
  revert t done. induction todo as [|seg rest IH]; intros t done.
  - cbn. intros [= <-]. apply same_links_refl.
  - cbn [mkdir_from]. destruct (t !! (done ++ [seg])) as [n|] eqn:E.
    + destruct n as [d| |target]; [by destruct rest|apply IH|by destruct rest].
    + intros H. apply IH in H. eapply same_links_trans; [|exact H].
      apply same_links_insert; [congruence|done].
Qed.

Lemma mkdir_from_lookup t done todo t' (q : path) :
  mkdir_from t done todo = Ok t' →
  length done + length todo < length q →
  t' !! q = t !! q.
Proof.
  revert t done. induction todo as [|seg rest IH]; intros t done.
  - cbn. by intros [= <-].
  - cbn [mkdir_from length]. intros H Hlen.
    assert (Hnext : length (done ++ [seg]) + length rest < length q).
    { rewrite length_app. cbn. lia. }
    destruct (t !! (done ++ [seg])) as [n|] eqn:E.
    + destruct n as [d| |target]; [by destruct rest| |by destruct rest].
      by apply IH in H.
    + apply IH in H; [|done]. rewrite H. apply lookup_insert_ne.
      intros <-. rewrite length_app in Hlen. cbn in Hlen. lia.
Qed.

Lemma length_removelast_lt (p : path) :
  p ≠ [] → length (removelast p) < length p.
Proof.
  induction p as [|x p IH]; [done|]. intros _. cbn [removelast].
  destruct p; [cbn; lia|]. cbn [length]. specialize (IH ltac:(done)).
  cbn [length] in IH. lia.
Qed.

(** *** The policy depends on the resolved paths only *)

Lemma is_path_allowed_resolved cfg os p abs_path root :
  resolve os p = Ok abs_path →
  resolve os (allowed_root cfg) = Ok root →
  is_path_allowed cfg os p = decision cfg os abs_path root.
Proof. intros Hp Hr. unfold is_path_allowed. by rewrite Hp, Hr. Qed.

Lemma is_path_allowed_true cfg os p reason :
  is_path_allowed cfg os p = (true, reason) →
  ∃ abs_path root,
    resolve os p = Ok abs_path ∧
    resolve os (allowed_root cfg) = Ok root ∧
    decision cfg os abs_path root = (true, reason).
Proof.
  unfold is_path_allowed.
  destruct (resolve os p) as [abs_path|e]; [|done].
  destruct (resolve os (allowed_root cfg)) as [root|e]; [|done].
  intros H. by exists abs_path, root.
Qed.

(** *** A resolved path names no link *)

Lemma prefix_snoc_inv (q l : path) x :
  q `prefix_of` l ++ [x] → q = l ++ [x] ∨ q `prefix_of` l.
Proof.
  intros [k Hk]. destruct (decide (k = [])) as [->|Hne].
  - left. by rewrite Hk, List.app_nil_r.
  - right. rewrite (app_removelast_last "" Hne), List.app_assoc in Hk.
    apply app_inj_tail in Hk as [-> _]. by eexists.
Qed.

Lemma removelast_prefix (l : path) : removelast l `prefix_of` l.
Proof.
  destruct (decide (l = [])) as [->|Hne]; [done|].
  exists [List.last l ""]. by apply app_removelast_last.
Qed.

Lemma link_free_prefix t (p q : path) :
  link_free t p → q `prefix_of` p → link_free t q.
Proof. intros Hp Hq r target Hr. apply Hp. by etrans. Qed.

Lemma walk_segments_link_free follow t :
  (∀ cur todo c, link_free t cur → follow cur todo = Ok c → link_free t c) →
  ∀ todo cur c, link_free t cur →
                walk_segments follow t cur todo = Ok c → link_free t c.
Proof.
  intros Hfollow. induction todo as [|seg rest IH]; intros cur c Hcur.
  - cbn. by intros [= <-].
  - cbn [walk_segments]. destruct (_ || _); [by apply IH|].
    destruct (String.eqb seg "..").
    { apply IH. eapply link_free_prefix; [done|apply removelast_prefix]. }
    destruct (t !! (cur ++ [seg])) as [n|] eqn:E.
    + destruct n as [d| |target].
      * apply IH. intros q target [->|Hq]%prefix_snoc_inv; [congruence|].
        by apply Hcur.
      * apply IH. intros q target [->|Hq]%prefix_snoc_inv; [congruence|].
        by apply Hcur.
      * apply Hfollow. destruct (str_startswith target "/"); [|done].
        eapply link_free_prefix; [done|apply prefix_nil].
    + apply IH. intros q target [->|Hq]%prefix_snoc_inv; [congruence|].
      by apply Hcur.
Qed.

Lemma walk_link_free fuel t cur todo c :
  link_free t cur → walk fuel t cur todo = Ok c → link_free t c.
Proof.
  revert cur todo c. induction fuel as [|fuel IH]; [done|].
  intros cur todo c. cbn [walk]. by apply walk_segments_link_free.
Qed.

(** When the working directory is reached without links, so is every
    resolved path: the node it names, if any, is a file or a directory. *)
Lemma resolve_link_free os s c :
  link_free (tree os) (cwd os) → resolve os s = Ok c →
  link_free (tree os) c.
Proof.
  intros Hcwd. unfold resolve. destruct (str_contains _ s); [done|].
  apply walk_link_free. destruct (str_startswith s "/"); [|done].
  eapply link_free_prefix; [done|apply prefix_nil].
Qed.

Lemma resolve_not_link os s c target :
  link_free (tree os) (cwd os) → resolve os s = Ok c →
  tree os !! c ≠ Some (Link target).
Proof. intros Hcwd Hres. by apply (resolve_link_free _ _ _ Hcwd Hres). Qed.

(** *** The printed form of a canonical path resolves to it *)

Lemma str_contains_char_app ch s t :
  str_contains (String ch "") (s +:+ t)
  = str_contains (String ch "") s || str_contains (String ch "") t.
Proof.
  induction s as [|c s IH].
  - rewrite str_app_nil_l. by destruct t.
  - rewrite str_app_cons. cbn [str_contains]. rewrite IH, !str_prefix_cons.
    destruct (ascii_dec ch c); [by rewrite !str_prefix_nil|].
    by rewrite !orb_false_l.
Qed.

Lemma str_segments_no_nul (p : path) :
  Forall proper p → str_contains (String NUL "") (str_segments p) = false.
Proof.
  induction 1 as [|seg rest (_ & Hnul & _) _ IH]; [done|].
  cbn [str_segments]. by rewrite !str_contains_char_app, Hnul, IH.
Qed.

Lemma walk_segments_canonical follow t (segs cur : path) :
  Forall proper segs → link_free t (cur ++ segs) →
  walk_segments follow t cur segs = Ok (cur ++ segs).
Proof.
  revert cur. induction segs as [|seg rest IH]; intros cur Hsegs Hfree.
  - by rewrite List.app_nil_r.
  - inversion Hsegs as [|? ? (_ & _ & Hne & Hdot & Hup) Hrest]; subst.
    cbn [walk_segments].
    apply String.eqb_neq in Hne, Hdot, Hup. rewrite Hne, Hdot, Hup.
    cbn [orb]. rewrite (cons_middle seg cur rest), List.app_assoc in Hfree |- *.
    rewrite IH by done.
    destruct (t !! (cur ++ [seg])) as [[d| |target]|] eqn:E; try done.
    destruct (Hfree (cur ++ [seg]) target); [by eexists|done].
Qed.

Lemma str_startswith_slash s : str_startswith ("/" +:+ s) "/" = true.
Proof.
  change ("/" +:+ s) with (String "/" s).
  unfold str_startswith. rewrite str_prefix_cons.
  destruct (ascii_dec "/" "/"); [apply str_prefix_nil|done].
Qed.

Lemma resolve_str_path os (c : path) :
  Forall proper c → link_free (tree os) c →
  resolve os (str_path c) = Ok c.
Proof.
  intros Hc Hfree. unfold resolve.
  assert (Hplain : Forall plain c).
  { eapply Forall_impl; [done|]. by intros seg (? & _). }
  destruct c as [|seg rest]; [reflexivity|].
  rewrite str_split_str_path by done.
  unfold str_path. rewrite str_segments_no_nul by done.
  cbn [str_segments]. rewrite str_startswith_slash. cbn [walk].
  change (walk_segments ?f ?t [] ("" :: ?segs))
    with (walk_segments f t [] segs).
  by rewrite walk_segments_canonical.
Qed.

Lemma path_parts_str_path (c : path) :
  Forall proper c → path_parts (str_path c) = (true, c).
Proof.
  intros Hc.
  assert (Hplain : Forall plain c).
  { eapply Forall_impl; [done|]. by intros seg (? & _). }
  unfold path_parts. destruct c as [|seg rest]; [done|].
  rewrite str_split_str_path by done. unfold str_path.
  cbn [str_segments]. rewrite str_startswith_slash. f_equal.
  rewrite filter_cons_False by (cbn; done).
  clear Hplain. induction Hc as [|x l (_ & _ & Hne & Hdot & _) _ IH]; [done|].
  rewrite filter_cons_True, IH; [done|].
  unfold kept_segment. apply String.eqb_neq in Hne, Hdot. by rewrite Hne, Hdot.
Qed.

(** Without a configuration file the root is the working directory, which the
    kernel reports in canonical form. *)
Lemma default_root_canonical os :
  Forall proper (cwd os) → link_free (tree os) (cwd os) →
  root_is_canonical (load_config None (str_path (cwd os))) os.
Proof.
  intros Hcwd Hfree. unfold root_is_canonical.
  assert (Hroot : allowed_root (load_config None (str_path (cwd os)))
                  = str_path (cwd os)).
  { cbn. by destruct (cwd os). }
  rewrite Hroot, path_parts_str_path by done. cbn [fst snd].
  split; [|done]. by apply resolve_str_path.
Qed.

(** * The path policy *)







(** Leaving the workspace with [..] is caught the same way. *)
Example traversal_denied :
  resolve demo_os "src/../../secret.txt" = Ok ["home"; "user"; "secret.txt"] ∧
  is_path_allowed demo_cfg demo_os "src/../../secret.txt"
  = (false, "Path outside allowed directory: /home/user/ws").
Proof. split; reflexivity. Qed.



Example blocked_segment_reason :
  is_path_allowed demo_cfg demo_os ".git/config"
  = (false, "Blocked pattern: .git").
Proof. reflexivity. Qed.

(** *** Lower-casing *)






(** The same step on an existing directory, a file without extension and an
    allowed extension in capitals. *)
Example extension_step_cases :
  is_path_allowed demo_cfg demo_os "src/lib.d" = (true, "OK") ∧
  is_path_allowed demo_cfg demo_os "src/Makefile" = (true, "OK") ∧
  is_path_allowed demo_cfg demo_os "src/NEW.PY" = (true, "OK") ∧
  is_path_allowed demo_cfg demo_os "src/new.d"
  = (false, "File extension not allowed: .d").
Proof. repeat split; reflexivity. Qed.

(** * The exact-text edit *)

(** What [edit_file] does once the file has passed the policy, exists, is a
    regular file within the size limit and decodes to [content]. *)
Lemma edit_file_on_text cfg os file_path old_string new_string replace_all
    reason abs_path disk :
  is_path_allowed cfg os file_path = (true, reason) →
  resolve os file_path = Ok abs_path →
  tree os !! abs_path = Some (File (Text disk)) →
  (utf8_size disk ≤ max_file_size cfg)%N →
  let content := universal_newlines disk in
  edit_file cfg file_path old_string new_string replace_all os
  = if negb (str_contains old_string content) then
      (os, "Error: old_string not found in " +:+ file_path)
    else if negb replace_all && Nat.ltb 1 (str_count content old_string) then
      (os, ambiguous_message (str_count content old_string) file_path)
    else
      let new_content :=
        str_replace content old_string new_string
                    (if replace_all then None else Some 1) in
      let replacements :=
        if replace_all then str_count content old_string else 1 in
      (with_tree os (<[abs_path := File (Text new_content)]> (tree os)),
       match relative_to abs_path (allowed_root cfg) with
       | Ok rel_path =>
           "Successfully replaced " +:+ str_of_nat replacements
           +:+ " occurrence(s) in " +:+ str_rel rel_path
       | Raise e => "Error editing file: " +:+ str_exn e
       end).
Proof.
  intros Hallowed Hres Hnode Hsize content.
  unfold edit_file. rewrite Hallowed. cbn [negb].
  run_io.
  rewrite Hres. unfold path_exists, is_file, check_file_size, getsize, open_read.
  repeat (rewrite Hnode; cbn beta iota; cbn [negb]).
  apply N.ltb_ge in Hsize. rewrite Hsize. cbn [negb].
  repeat (rewrite Hnode; cbn beta iota; cbn [negb]). fold content.
  destruct (str_contains old_string content); cbn [negb]; [|done].
  destruct replace_all; cbn [negb andb].
  - unfold open_write. rewrite Hnode.
    by destruct (relative_to abs_path (allowed_root cfg)).
  - destruct (Nat.ltb 1 (str_count content old_string)); [done|].
    unfold open_write. rewrite Hnode.
    by destruct (relative_to abs_path (allowed_root cfg)).
Qed.

Lemma editable_inv cfg os file_path abs_path content :
  editable cfg os file_path abs_path content →
  ∃ reason disk,
    is_path_allowed cfg os file_path = (true, reason) ∧
    resolve os file_path = Ok abs_path ∧
    tree os !! abs_path = Some (File (Text disk)) ∧
    (utf8_size disk ≤ max_file_size cfg)%N ∧
    content = universal_newlines disk.
Proof.
  intros (Hallowed & Hres & Hsize & Hread).
  destruct (is_path_allowed cfg os file_path) as [allowed reason] eqn:E.
  cbn in Hallowed. subst allowed. unfold open_read in Hread.
  unfold check_file_size, getsize in Hsize.
  destruct (tree os !! abs_path) as [[[disk|size]| |target]|] eqn:Hnode;
    try done.
  injection Hread as <-. exists reason, disk. repeat split; try done.
  destruct (N.ltb_spec (max_file_size cfg) (utf8_size disk)); [done|lia].
Qed.

(** The three outcomes of [edit_file] on an editable file. *)
Lemma edit_file_editable cfg os file_path old_string new_string replace_all
    abs_path content :
  editable cfg os file_path abs_path content →
  edit_file cfg file_path old_string new_string replace_all os
  = if negb (str_contains old_string content) then
      (os, "Error: old_string not found in " +:+ file_path)
    else if negb replace_all && Nat.ltb 1 (str_count content old_string) then
      (os, ambiguous_message (str_count content old_string) file_path)
    else
      (with_file os abs_path
         (str_replace content old_string new_string
                      (if replace_all then None else Some 1)),
       match relative_to abs_path (allowed_root cfg) with
       | Ok rel_path =>
           "Successfully replaced "
           +:+ str_of_nat (if replace_all
                           then str_count content old_string else 1)
           +:+ " occurrence(s) in " +:+ str_rel rel_path
       | Raise e => "Error editing file: " +:+ str_exn e
       end).
Proof.
  intros (reason & disk & Hallowed & Hres & Hnode & Hsize & ->)%editable_inv.
  by rewrite (edit_file_on_text _ _ _ _ _ _ _ _ _ Hallowed Hres Hnode Hsize).
Qed.

(** With a root written in canonical form, an allowed path prints relative
    to it. *)
Lemma relative_to_allowed cfg os p abs_path :
  root_is_canonical cfg os →
  (is_path_allowed cfg os p).1 = true →
  resolve os p = Ok abs_path →
  ∃ rel_path,
    relative_to abs_path (allowed_root cfg) = Ok rel_path ∧
    abs_path = (path_parts (allowed_root cfg)).2 ++ rel_path.
Proof.
  intros [Hroot Habs] Hallowed Hres.
  rewrite (is_path_allowed_resolved _ _ _ _ _ Hres Hroot) in Hallowed.
  unfold decision in Hallowed. unfold relative_to.
  destruct (path_parts (allowed_root cfg)) as [absolute parts].
  cbn in Hallowed, Habs |- *. subst absolute.
  destruct (strip_parts parts abs_path) as [rel|] eqn:E; [|done].
  exists rel. split; [done|]. by apply strip_parts_Some.
Qed.

(** *** Counting and replacing, in terms of the pieces *)

Lemma replace_all_pieces content old new :
  ∃ pieces,
    length pieces = S (str_count content old) ∧
    content = str_join old pieces ∧
    (old ≠ "" → scanned old content pieces) ∧
    str_replace content old new None = str_join new pieces.
Proof.
  destruct old as [|a o].
  - exists ("" :: explode content ++ [""]). repeat split.
    + cbn [length str_count]. rewrite length_app, length_explode. cbn. lia.
    + by rewrite explode_join.
    + done.
    + apply interleave_pieces.
  - destruct (scan_pieces a o content) as (pieces & Hs & Hl & Hrep).
    exists pieces. repeat split; try done.
    + by apply scanned_join.
    + apply Hrep.
Qed.


(** C5. On an editable file whose text does not contain [old_string],
    [edit_file] answers that the text was not found, which is not the answer
    for a missing file, and leaves the disk as it was. *)
Theorem edit_text_not_found cfg os file_path old_string new_string replace_all
    abs_path content :
  editable cfg os file_path abs_path content →
  (¬ ∃ u v, content = u +:+ old_string +:+ v) →
  edit_file cfg file_path old_string new_string replace_all os
  = (os, "Error: old_string not found in " +:+ file_path) ∧
  "Error: old_string not found in " +:+ file_path
  ≠ "File not found: " +:+ file_path.
Proof.
  intros Hfile Hmiss. split; [|intros H; vm_compute in H; discriminate].
  rewrite (edit_file_editable _ _ _ _ _ _ _ _ Hfile).
  destruct (str_contains old_string content) eqn:E; [|done].
  by apply str_contains_true in E.
Qed.

Lemma demo_a_editable :
  editable demo_cfg demo_os "a.txt" (ws ++ ["a.txt"])
           ("x = 1" +:+ NL +:+ "x = 2" +:+ NL +:+ "x = 3").
Proof. by repeat split. Qed.


Lemma demo_root_canonical : root_is_canonical demo_cfg demo_os.
Proof. by split. Qed.

Lemma edit_text_not_found_witness :
  edit_file demo_cfg "a.txt" "z = " "y = " false demo_os
  = (demo_os, "Error: old_string not found in a.txt").
Proof.
  refine (proj1 (edit_text_not_found demo_cfg demo_os "a.txt" "z = " "y = "
                   false _ _ demo_a_editable _)).
  intros H%str_contains_true. discriminate.
Defined.

(** The path-level answer, for comparison. *)
Example edit_missing_file :
  edit_file demo_cfg "nonexistent.txt" "old" "new" false demo_os
  = (demo_os, "File not found: nonexistent.txt").
Proof. reflexivity. Qed.



(** When the text of an editable file holds [n > 1] copies of [old_string],
    [edit_file] without [replace_all] answers that the string appears [n]
    times and leaves the disk as it was; with [replace_all] it writes the
    text with each of the [n] copies found by the left-to-right scan
    replaced by [new_string], and, when the root is written in canonical
    form, reports [n] replacements. *)
Lemma edit_several_copies cfg os file_path old_string new_string
    abs_path content n :
  editable cfg os file_path abs_path content →
  str_count content old_string = n →
  1 < n →
  edit_file cfg file_path old_string new_string false os
  = (os, ambiguous_message n file_path) ∧
  ∃ pieces,
    length pieces = S n ∧
    content = str_join old_string pieces ∧
    (old_string ≠ "" → scanned old_string content pieces) ∧
    (edit_file cfg file_path old_string new_string true os).1
    = with_file os abs_path (str_join new_string pieces) ∧
    (root_is_canonical cfg os →
     ∃ rel_path,
       abs_path = (path_parts (allowed_root cfg)).2 ++ rel_path ∧
       (edit_file cfg file_path old_string new_string true os).2
       = "Successfully replaced " +:+ str_of_nat n
         +:+ " occurrence(s) in " +:+ str_rel rel_path).
Proof.
  intros Hfile Hcount Hn.
  assert (Hin : str_contains old_string content = true).
  { apply str_count_contains. lia. }
  rewrite !(edit_file_editable _ _ _ _ _ _ _ _ Hfile), Hin, Hcount.
  cbn [negb andb]. apply Nat.ltb_lt in Hn as Hmany. rewrite Hmany.
  split; [done|].
  destruct (replace_all_pieces content old_string new_string)
    as (pieces & Hlen & Hjoin & Hscan & Hrep).
  exists pieces. rewrite Hcount in Hlen. repeat split; try done.
  - cbn [fst]. by rewrite Hrep.
  - intros Hroot. destruct Hfile as (Hallowed & Hres & _).
    destruct (relative_to_allowed _ _ _ _ Hroot Hallowed Hres)
      as (rel & Hrel & Hcut).
    exists rel. split; [done|]. cbn [snd]. by rewrite Hrel.
Qed.

(** The scenario of the tests: three assignments, and no [replace_all]. *)
Example edit_ambiguous_scenario :
  edit_file demo_cfg "a.txt" "x = " "y = " false demo_os
  = (demo_os, ambiguous_message 3 "a.txt").
Proof.
  refine (proj1 (edit_several_copies demo_cfg demo_os "a.txt" "x = " "y = "
                   _ _ 3 demo_a_editable _ _)).
  - reflexivity.
  - lia.
Qed.

(** The scenario of the specification: three assignments renamed at once. *)
Example edit_replace_all_scenario :
  edit_file demo_cfg "a.txt" "x = " "y = " true demo_os
  = (with_file demo_os (ws ++ ["a.txt"])
       ("y = 1" +:+ NL +:+ "y = 2" +:+ NL +:+ "y = 3"),
     "Successfully replaced 3 occurrence(s) in a.txt").
Proof. reflexivity. Qed.




Example edit_overlapping_scenario :
  edit_file demo_cfg "aaa.txt" "aa" "b" false demo_os
  = (with_file demo_os (ws ++ ["aaa.txt"]) "ba",
     "Successfully replaced 1 occurrence(s) in aaa.txt").
Proof. reflexivity. Qed.

Lemma linked_a_editable :
  editable linked_cfg linked_os "a.txt" (ws ++ ["a.txt"])
           ("x = 1" +:+ NL +:+ "x = 2" +:+ NL +:+ "x = 3").
Proof. by repeat split. Qed.

(** C2. The report of the replacements is printed relative to the root as
    it is configured, where the policy compares with the root resolved.
    With a root spelled through a symbolic link, a file that is editable and
    holds three copies of [old_string] has the three replaced under
    [replace_all], and the answer is the error of [relative_to] instead of
    the report of three replacements. *)
Theorem edit_all_under_linked_root :
  editable linked_cfg linked_os "a.txt" (ws ++ ["a.txt"])
           ("x = 1" +:+ NL +:+ "x = 2" +:+ NL +:+ "x = 3") ∧
  str_count ("x = 1" +:+ NL +:+ "x = 2" +:+ NL +:+ "x = 3") "x = " = 3 ∧
  edit_file linked_cfg "a.txt" "x = " "y = " true linked_os
  = (with_file linked_os (ws ++ ["a.txt"])
       ("y = 1" +:+ NL +:+ "y = 2" +:+ NL +:+ "y = 3"),
     "Error editing file: '/home/user/ws/a.txt' is not in the subpath of '/w'").
Proof. split; [apply linked_a_editable|]. split; reflexivity. Qed.

(** * Creating, writing and reading files *)

(** C7. [create_file] on an allowed path that exists answers that the file
    already exists and leaves the disk as it was. *)
Theorem create_existing cfg os path content abs_path :
  (is_path_allowed cfg os path).1 = true →
  resolve os path = Ok abs_path →
  path_exists os abs_path = true →
  create_file cfg path content os
  = (os, "File already exists: " +:+ path
         +:+ ". Use write_file to update it.").
Proof.
  intros Hallowed Hres Hex. unfold create_file.
  destruct (is_path_allowed cfg os path) as [allowed reason].
  cbn in Hallowed. subst allowed. cbn [negb].
  run_io.
  by rewrite Hres, Hex.
Qed.

Lemma create_existing_witness :
  create_file demo_cfg "a.txt" "fresh" demo_os
  = (demo_os, "File already exists: a.txt. Use write_file to update it.").
Proof.
  apply (create_existing demo_cfg demo_os "a.txt" "fresh" (ws ++ ["a.txt"]));
    reflexivity.
Defined.

(** An existing directory is refused in the same words. *)
Example create_existing_directory :
  create_file demo_cfg "src" "fresh" demo_os
  = (demo_os, "File already exists: src. Use write_file to update it.").
Proof. reflexivity. Qed.

(** *** Reading back what was written *)

Lemma no_cr_universal_newlines s :
  str_contains (String CR "") s = false → universal_newlines s = s.
Proof.
  induction s as [|c s IH]; [done|]. intros H.
  apply str_contains_cons_false in H as [Hp Hc].
  rewrite str_prefix_cons in Hp. cbn [universal_newlines].
  destruct (Ascii.eqb_spec c CR) as [->|Hne].
  - destruct (ascii_dec CR CR); [|done]. by rewrite str_prefix_nil in Hp.
  - by rewrite IH.
Qed.

Lemma denied_not_success reason :
  ¬ write_succeeded ("Access denied: " +:+ reason).
Proof. intros [rel [H|H]]; vm_compute in H; discriminate. Qed.

Lemma error_not_success e :
  ¬ write_succeeded ("Error writing file: " +:+ str_exn e).
Proof. intros [rel [H|H]]; vm_compute in H; discriminate. Qed.

(** What a successful [write_file] went through. *)
Lemma write_file_success cfg os path content :
  write_succeeded (write_file cfg path content os).2 →
  ∃ abs_path root reason t,
    resolve os path = Ok abs_path ∧
    resolve os (allowed_root cfg) = Ok root ∧
    decision cfg os abs_path root = (true, reason) ∧
    mkdir_from (tree os) [] (parent abs_path) = Ok t ∧
    (t !! abs_path = None ∨ ∃ d, t !! abs_path = Some (File d)) ∧
    (write_file cfg path content os).1
    = with_tree os (<[abs_path := File (Text content)]> t).
Proof.
  unfold write_file.
  destruct (is_path_allowed cfg os path) as [allowed reason] eqn:Hallowed.
  destruct allowed; cbn [negb]; [|by intros ?%denied_not_success].
  apply is_path_allowed_true in Hallowed
    as (abs_path & root & Hres & Hroot & Hdec).
  run_io. unfold mkdir_parents.
  rewrite Hres.
  destruct (mkdir_from (tree os) [] (parent abs_path)) as [t|e] eqn:Hmk;
    [|by intros ?%error_not_success].
  unfold open_write. cbn [tree with_tree].
  destruct (t !! abs_path) as [[d| |target]|] eqn:Hnode;
    try (by intros ?%error_not_success).
  - destruct (relative_to abs_path (allowed_root cfg)) as [rel|e];
      [|by intros ?%error_not_success].
    intros _. exists abs_path, root, reason, t. repeat split; eauto.
  - destruct (relative_to abs_path (allowed_root cfg)) as [rel|e];
      [|by intros ?%error_not_success].
    intros _. exists abs_path, root, reason, t. repeat split; eauto.
Qed.

(** The parent directories leave the file itself alone. *)
Lemma mkdir_parent_lookup t (p : path) t' :
  mkdir_from t [] (parent p) = Ok t' → t' !! p = t !! p.
Proof.
  intros H. destruct p as [|x p].
  - cbn in H. by injection H as <-.
  - eapply mkdir_from_lookup; [exact H|]. cbn [length].
    apply (length_removelast_lt (x :: p)). done.
Qed.

(** Reading the file back after a successful write. *)
Lemma read_after_write cfg os path content :
  write_succeeded (write_file cfg path content os).2 →
  read_file cfg (write_file cfg path content os).1 path
  = if (max_file_size cfg <? utf8_size content)%N then
      "File too large: " +:+ str_of_N (utf8_size content) +:+ " bytes (max: "
      +:+ str_of_N (max_file_size cfg) +:+ ")"
    else universal_newlines content.
Proof.
  intros (abs_path & root & reason & t & Hres & Hroot & Hdec & Hmk & Hnode
          & ->)%write_file_success.
  set (os' := with_tree os (<[abs_path := File (Text content)]> t)).
  assert (Hlinks : same_links (tree os) (tree os')).
  { eapply same_links_trans; [by eapply mkdir_from_same_links|].
    apply same_links_insert; [|done].
    intros target. destruct Hnode as [->|[d ->]]; done. }
  assert (Hfile : tree os' !! abs_path = Some (File (Text content))).
  { apply lookup_insert_eq. }
  assert (Hres' : resolve os' path = Ok abs_path).
  { by rewrite <- (resolve_same_links os os'). }
  assert (Hroot' : resolve os' (allowed_root cfg) = Ok root).
  { by rewrite <- (resolve_same_links os os'). }
  assert (Hdec' : decision cfg os' abs_path root = (true, "OK")).
  { revert Hdec. unfold decision, is_file, path_exists. rewrite Hfile.
    rewrite <- (mkdir_parent_lookup _ _ _ Hmk).
    destruct (strip_parts root abs_path); [|done].
    destruct (first_blocked _ _); [done|].
    destruct Hnode as [->|[d ->]]; cbn [negb orb];
      by destruct (negb _ && negb _). }
  unfold read_file.
  rewrite (is_path_allowed_resolved _ _ _ _ _ Hres' Hroot'), Hdec'.
  cbn [negb]. rewrite Hres'. cbn [mbind result_bind].
  unfold path_exists, is_file, check_file_size, getsize, open_read.
  rewrite Hfile. cbn [negb].
  by destruct (max_file_size cfg <? utf8_size content)%N.
Qed.

Lemma utf8_size_app s t : (utf8_size (s +:+ t) = utf8_size s + utf8_size t)%N.
Proof.
  induction s as [|c s IH]; [done|]. rewrite str_app_cons.
  cbn [utf8_size]. rewrite IH. lia.
Qed.

Lemma utf8_size_doubled k s :
  (utf8_size (doubled k s) = 2 ^ N.of_nat k * utf8_size s)%N.
Proof.
  induction k as [|k IH]; cbn [doubled].
  - cbn. lia.
  - rewrite utf8_size_app, IH, Nat2N.inj_succ, N.pow_succ_r'. lia.
Qed.

Lemma doubled_head k c s : ∃ t, doubled k (String c s) = String c t.
Proof.
  induction k as [|k [t IH]]; cbn [doubled]; [by exists s|].
  rewrite IH, str_app_cons. by eexists.
Qed.

Lemma utf8_size_big_content : utf8_size big_content = 16777216%N.
Proof. unfold big_content. by rewrite utf8_size_doubled. Qed.

Lemma write_reports_created content :
  (write_file demo_cfg "big.txt" content demo_os).2 = "Created file: big.txt".
Proof. reflexivity. Qed.

Lemma big_round_trip :
  (write_file demo_cfg "big.txt" big_content demo_os).2
  = "Created file: big.txt" ∧
  read_file demo_cfg (write_file demo_cfg "big.txt" big_content demo_os).1
            "big.txt"
  = "File too large: 16777216 bytes (max: 10485760)" ∧
  read_file demo_cfg (write_file demo_cfg "big.txt" big_content demo_os).1
            "big.txt"
  ≠ big_content.
Proof.
  assert (Hread :
    read_file demo_cfg (write_file demo_cfg "big.txt" big_content demo_os).1
              "big.txt"
    = "File too large: 16777216 bytes (max: 10485760)").
  { rewrite read_after_write.
    - rewrite utf8_size_big_content. reflexivity.
    - exists "big.txt". left. apply write_reports_created. }
  split; [apply write_reports_created|split; [exact Hread|]].
  rewrite Hread. destruct (doubled_head 24 "a" "") as [t Ht].
  unfold big_content. rewrite Ht. discriminate.
Qed.

Lemma carriage_return_round_trip :
  (write_file demo_cfg "mac.txt" ("a" +:+ String CR "b") demo_os).2
  = "Created file: mac.txt" ∧
  read_file demo_cfg
            (write_file demo_cfg "mac.txt" ("a" +:+ String CR "b") demo_os).1
            "mac.txt"
  = "a" +:+ String LF "b" ∧
  "a" +:+ String LF "b" ≠ "a" +:+ String CR "b".
Proof. repeat split; discriminate. Qed.

(** The round trip fails for a text above the size limit, which [write_file]
    stores and [read_file] refuses to load, and for a text with a carriage
    return, which is read back as a line feed. *)
Lemma write_then_read_fails :
  ((write_file demo_cfg "big.txt" big_content demo_os).2
   = "Created file: big.txt" ∧
   read_file demo_cfg (write_file demo_cfg "big.txt" big_content demo_os).1
             "big.txt"
   ≠ big_content) ∧
  ((write_file demo_cfg "mac.txt" ("a" +:+ String CR "b") demo_os).2
   = "Created file: mac.txt" ∧
   read_file demo_cfg
             (write_file demo_cfg "mac.txt" ("a" +:+ String CR "b") demo_os).1
             "mac.txt"
   ≠ "a" +:+ String CR "b").
Proof.
  destruct big_round_trip as (Hbig & _ & Hdiff).
  destruct carriage_return_round_trip as (Hcr & Hread & Hne).
  split; [by split|]. split; [exact Hcr|]. rewrite Hread. exact Hne.
Qed.

(** C6, amended. When [write_file] reports success for a text that fits the
    size limit and has no carriage return, [read_file] on the same path
    returns that text. *)
Theorem write_then_read cfg os path content :
  write_succeeded (write_file cfg path content os).2 →
  (utf8_size content ≤ max_file_size cfg)%N →
  str_contains (String CR "") content = false →
  read_file cfg (write_file cfg path content os).1 path = content.
Proof.
  intros Hok Hsize Hcr. rewrite read_after_write by done.
  apply N.ltb_ge in Hsize. rewrite Hsize. by apply no_cr_universal_newlines.
Qed.

Lemma write_then_read_witness :
  read_file demo_cfg
    (write_file demo_cfg "notes/todo.md" ("one" +:+ NL +:+ "two") demo_os).1
    "notes/todo.md"
  = "one" +:+ NL +:+ "two".
Proof.
  apply (write_then_read demo_cfg demo_os "notes/todo.md"
           ("one" +:+ NL +:+ "two")).
  - exists "notes/todo.md". by left.
  - vm_compute. discriminate.
  - reflexivity.
Defined.

(** Overwriting is reported as an update. *)
Example write_existing :
  (write_file demo_cfg "a.txt" "x = 0" demo_os).2 = "Updated file: a.txt" ∧
  read_file demo_cfg (write_file demo_cfg "a.txt" "x = 0" demo_os).1 "a.txt"
  = "x = 0".
Proof. split; reflexivity. Qed.

(** * Search *)





(** Sixty matching lines in one file: fifty are printed and ten announced. *)
Example search_truncated :
  let output := search_in_files rglob_all demo_cfg long_os "PASS" "src" "*" in
  str_endswith output (NL +:+ NL +:+ "... and 10 more results") = true ∧
  str_startswith output ("long.py:1: pass" +:+ NL +:+ "long.py:2: pass") = true ∧
  length (str_split LF output) = 52.
Proof. vm_compute. done. Qed.

Example search_few :
  search_in_files rglob_all demo_cfg demo_os "os" "." "*"
  = "src/m.py:1: import os" +:+ NL +:+ "src/m.py:2: print(OS)".
Proof. vm_compute. reflexivity. Qed.

(** * More on the path policy *)




(** The policy sees the links and what kind of entry a path names, never
    what a file holds. *)
Lemma is_path_allowed_same_shape cfg os os' p :
  cwd os = cwd os' →
  same_links (tree os) (tree os') →
  (∀ q, is_file os q = is_file os' q ∧ path_exists os q = path_exists os' q) →
  is_path_allowed cfg os p = is_path_allowed cfg os' p.
Proof.
  intros Hcwd Hlinks Hkinds. unfold is_path_allowed.
  rewrite <- !(resolve_same_links os os') by done.
  destruct (resolve os p) as [c|e]; [|done].
  destruct (resolve os (allowed_root cfg)) as [root|e]; [|done].
  cbn [mbind result_bind mret result_ret].
  by destruct (Hkinds c) as [-> ->].
Qed.

Lemma with_file_same_shape os (abs : path) d content :
  tree os !! abs = Some (File d) →
  same_links (tree os) (tree (with_file os abs content)) ∧
  ∀ q, is_file os q = is_file (with_file os abs content) q ∧
       path_exists os q = path_exists (with_file os abs content) q.
Proof.
  intros Hnode. split.
  - apply same_links_insert; [congruence|done].
  - intros q. unfold is_file, path_exists, with_file. cbn [tree with_tree].
    destruct (decide (abs = q)) as [<-|Hne].
    + by rewrite lookup_insert_eq, Hnode.
    + by rewrite lookup_insert_ne.
Qed.

(** X2. Rewriting a regular file changes no decision of the policy, for any
    path: the policy does not depend on what files hold. *)
Theorem policy_ignores_content cfg os abs d content p :
  tree os !! abs = Some (File d) →
  is_path_allowed cfg (with_file os abs content) p = is_path_allowed cfg os p.
Proof.
  intros Hnode. symmetry.
  destruct (with_file_same_shape os abs d content Hnode) as [Hlinks Hkinds].
  by apply is_path_allowed_same_shape.
Qed.

Lemma policy_ignores_content_witness :
  is_path_allowed demo_cfg (with_file demo_os (ws ++ ["a.txt"]) "secret")
                  "../a.txt"
  = is_path_allowed demo_cfg demo_os "../a.txt".
Proof.
  by apply (policy_ignores_content demo_cfg demo_os (ws ++ ["a.txt"])
              (Text ("x = 1" +:+ NL +:+ "x = 2" +:+ NL +:+ "x = 3"))).
Defined.






(** * More on reading *)

(** X5. For an allowed regular file the size is checked before the bytes
    are decoded: above the limit the answer is the size message, even for
    bytes that would not decode; up to the limit, the limit included, text
    is returned with its line endings translated, and bytes that do not
    decode give the binary message. *)
Theorem read_regular_file cfg os p abs d :
  (is_path_allowed cfg os p).1 = true →
  resolve os p = Ok abs →
  tree os !! abs = Some (File d) →
  ((max_file_size cfg < data_size d)%N →
   read_file cfg os p
   = "File too large: " +:+ str_of_N (data_size d) +:+ " bytes (max: "
     +:+ str_of_N (max_file_size cfg) +:+ ")") ∧
  ((data_size d ≤ max_file_size cfg)%N →
   read_file cfg os p
   = match d with
     | Text s => universal_newlines s
     | Binary _ =>
         "File appears to be binary or uses unsupported encoding: " +:+ p
     end).
Proof.
  intros Hallowed Hres Hnode. unfold read_file.
  destruct (is_path_allowed cfg os p) as [allowed reason].
  cbn in Hallowed. subst allowed. cbn [negb]. rewrite Hres.
  cbn [mbind result_bind].
  unfold path_exists, is_file, check_file_size, getsize, open_read.
  rewrite Hnode. cbn [negb].
  split; intros Hsize.
  - apply N.ltb_lt in Hsize. destruct d; cbn [data_size] in Hsize;
      by rewrite Hsize.
  - apply N.ltb_ge in Hsize. destruct d; cbn [data_size] in Hsize;
      by rewrite Hsize.
Qed.

Lemma read_regular_file_witness :
  read_file demo_cfg demo_os "src/m.py"
  = "import os" +:+ NL +:+ "print(OS)" +:+ NL.
Proof.
  refine (proj2 (read_regular_file demo_cfg demo_os "src/m.py"
                   (ws ++ ["src"; "m.py"])
                   (Text ("import os" +:+ NL +:+ "print(OS)" +:+ NL))
                   _ _ _) _); try reflexivity.
  vm_compute. discriminate.
Defined.

(** * More on writing, creating and deleting *)

Lemma with_tree_same os : with_tree os (tree os) = os.
Proof. by destruct os. Qed.

Lemma ancestors_from_prefix above todo (q : path) :
  q ∈ ancestors_from above todo →
  q `prefix_of` above ++ todo ∧ length above < length q.
Proof.
  revert above. induction todo as [|seg rest IH]; intros above Hin.
  - by inversion Hin.
  - cbn [ancestors_from] in Hin. apply elem_of_cons in Hin as [->|Hin].
    + split; [|rewrite length_app; cbn; lia].
      exists rest. by rewrite <- List.app_assoc.
    + apply IH in Hin as [Hpre Hlen].
      rewrite <- List.app_assoc in Hpre. split; [done|].
      rewrite length_app in Hlen. cbn in Hlen. lia.
Qed.

(** The parents that [mkdir_from] adds are directories on the way; what was
    there stays. *)
Lemma mkdir_from_preserves t above todo t' (q : path) n :
  mkdir_from t above todo = Ok t' → t !! q = Some n → t' !! q = Some n.
Proof.
  revert t above. induction todo as [|seg rest IH]; intros t above.
  - cbn. by intros [= <-].
  - cbn [mkdir_from]. destruct (t !! (above ++ [seg])) as [m|] eqn:E.
    + destruct m as [d| |target]; [by destruct rest|apply IH|by destruct rest].
    + intros H Hq. eapply IH; [exact H|].
      rewrite lookup_insert_ne; [done|]. congruence.
Qed.

Lemma mkdir_from_new t above todo t' (q : path) :
  mkdir_from t above todo = Ok t' → t !! q = None →
  t' !! q = None ∨ t' !! q = Some Dir ∧ q ∈ ancestors_from above todo.
Proof.
  revert t above. induction todo as [|seg rest IH]; intros t above.
  - cbn. intros [= <-] Hq. by left.
  - cbn [mkdir_from ancestors_from].
    destruct (t !! (above ++ [seg])) as [m|] eqn:E.
    + destruct m as [d| |target]; [by destruct rest| |by destruct rest].
      intros H Hq. destruct (IH _ _ H Hq) as [?|[? ?]]; [by left|].
      right. split; [done|]. by right.
    + intros H Hq. destruct (decide (q = above ++ [seg])) as [->|Hne].
      * right. split; [|by left].
        eapply mkdir_from_preserves; [exact H|]. apply lookup_insert_eq.
      * assert (Hq' : <[above ++ [seg] := Dir]> t !! q = None)
          by (by rewrite lookup_insert_ne).
        destruct (IH _ _ H Hq') as [?|[? ?]]; [by left|].
        right. split; [done|]. by right.
Qed.

Lemma mkdir_from_dirs t above todo t' :
  mkdir_from t above todo = Ok t' →
  Forall (λ q, t' !! q = Some Dir) (ancestors_from above todo).
Proof.
  revert t above. induction todo as [|seg rest IH]; intros t above H.
  - constructor.
  - cbn [mkdir_from ancestors_from] in *.
    destruct (t !! (above ++ [seg])) as [m|] eqn:E.
    + destruct m as [d| |target]; [by destruct rest| |by destruct rest].
      constructor; [|by eapply IH].
      by eapply mkdir_from_preserves.
    + constructor; [|by eapply IH].
      eapply mkdir_from_preserves; [exact H|]. apply lookup_insert_eq.
Qed.

Lemma mkdir_from_noop t above todo :
  Forall (λ q, t !! q = Some Dir) (ancestors_from above todo) →
  mkdir_from t above todo = Ok t.
Proof.
  revert above. induction todo as [|seg rest IH]; intros above H; [done|].
  cbn [mkdir_from ancestors_from] in *.
  inversion H as [|? ? Hd Hrest]; subst. rewrite Hd. by apply IH.
Qed.


Lemma removelast_prefix_of (q p : path) :
  q `prefix_of` removelast p → q `prefix_of` p.
Proof. intros H. etrans; [exact H|apply removelast_prefix]. Qed.



(** A successful [write_file], with its report. *)
Lemma write_file_report cfg os p content :
  write_succeeded (write_file cfg p content os).2 →
  ∃ abs root reason t rel,
    resolve os p = Ok abs ∧
    resolve os (allowed_root cfg) = Ok root ∧
    decision cfg os abs root = (true, reason) ∧
    mkdir_from (tree os) [] (parent abs) = Ok t ∧
    relative_to abs (allowed_root cfg) = Ok rel ∧
    (t !! abs = None ∨ ∃ d, t !! abs = Some (File d)) ∧
    write_file cfg p content os
    = (with_tree os (<[abs := File (Text content)]> t),
       (if path_exists os abs then "Updated" else "Created")
       +:+ " file: " +:+ str_rel rel).
Proof.
  unfold write_file.
  destruct (is_path_allowed cfg os p) as [allowed reason] eqn:Hallowed.
  destruct allowed; cbn [negb]; [|by intros ?%denied_not_success].
  apply is_path_allowed_true in Hallowed
    as (abs & root & Hres & Hroot & Hdec).
  run_io. unfold mkdir_parents. rewrite Hres.
  destruct (mkdir_from (tree os) [] (parent abs)) as [t|e] eqn:Hmk;
    [|by intros ?%error_not_success].
  pose proof (mkdir_parent_lookup _ _ _ Hmk) as Hsame.
  unfold open_write. cbn [tree with_tree].
  assert (Hex : path_exists (with_tree os t) abs = path_exists os abs).
  { unfold path_exists. cbn [tree with_tree]. by rewrite Hsame. }
  rewrite Hex.
  destruct (t !! abs) as [[d| |target]|] eqn:Hnode;
    try (by intros ?%error_not_success);
    (destruct (relative_to abs (allowed_root cfg)) as [rel|e] eqn:Hrel;
       [|by intros ?%error_not_success]);
    intros _; exists abs, root, reason, t, rel; repeat split; eauto.
Qed.

(** After a successful write the path is still allowed and still resolves
    to the file written. *)
Lemma allowed_after_write cfg os p abs root reason t content :
  resolve os p = Ok abs →
  resolve os (allowed_root cfg) = Ok root →
  decision cfg os abs root = (true, reason) →
  mkdir_from (tree os) [] (parent abs) = Ok t →
  (t !! abs = None ∨ ∃ d, t !! abs = Some (File d)) →
  let os' := with_tree os (<[abs := File (Text content)]> t) in
  resolve os' p = Ok abs ∧ is_path_allowed cfg os' p = (true, "OK").
Proof.
  intros Hres Hroot Hdec Hmk Hnode os'.
  assert (Hlinks : same_links (tree os) (tree os')).
  { eapply same_links_trans; [by eapply mkdir_from_same_links|].
    apply same_links_insert; [|done].
    intros target. destruct Hnode as [->|[d ->]]; done. }
  assert (Hfile : tree os' !! abs = Some (File (Text content))).
  { apply lookup_insert_eq. }
  assert (Hres' : resolve os' p = Ok abs).
  { by rewrite <- (resolve_same_links os os'). }
  assert (Hroot' : resolve os' (allowed_root cfg) = Ok root).
  { by rewrite <- (resolve_same_links os os'). }
  split; [done|].
  rewrite (is_path_allowed_resolved _ _ _ _ _ Hres' Hroot').
  revert Hdec. unfold decision, is_file, path_exists. rewrite Hfile.
  rewrite <- (mkdir_parent_lookup _ _ _ Hmk).
  destruct (strip_parts root abs); [|done].
  destruct (first_blocked _ _); [done|].
  destruct Hnode as [->|[d ->]]; cbn [negb orb];
    by destruct (negb _ && negb _).
Qed.

Lemma ancestors_of_parent_ne (abs q : path) :
  q ∈ ancestors (parent abs) → q ≠ abs.
Proof.
  intros [Hpre Hlen]%ancestors_from_prefix ->.
  cbn [app] in Hpre. apply prefix_length in Hpre.
  destruct (decide (abs = [])) as [->|Hne]; [cbn in Hlen; lia|].
  pose proof (length_removelast_lt abs Hne). unfold parent in Hpre. lia.
Qed.

(** X7. Writing the same content again after a successful write changes
    nothing on disk, and is reported as an update of the same file. *)
Theorem write_file_twice cfg os p content :
  write_succeeded (write_file cfg p content os).2 →
  ∃ rel,
    ((write_file cfg p content os).2 = "Created file: " +:+ rel ∨
     (write_file cfg p content os).2 = "Updated file: " +:+ rel) ∧
    write_file cfg p content (write_file cfg p content os).1
    = ((write_file cfg p content os).1, "Updated file: " +:+ rel).
Proof.
  intros (abs & root & reason & t & rel & Hres & Hroot & Hdec & Hmk & Hrel
          & Hnode & ->)%write_file_report.
  exists (str_rel rel). split.
  { cbn [snd]. destruct (path_exists os abs); [by right|by left]. }
  cbn [fst].
  destruct (allowed_after_write _ _ _ _ _ _ _ content Hres Hroot Hdec Hmk Hnode)
    as [Hres' Hallowed'].
  set (os' := with_tree os (<[abs := File (Text content)]> t)) in *.
  unfold write_file. rewrite Hallowed'. cbn [negb].
  run_io. unfold mkdir_parents. rewrite Hres'.
  assert (Hnoop : mkdir_from (tree os') [] (parent abs) = Ok (tree os')).
  { apply mkdir_from_noop.
    pose proof (mkdir_from_dirs _ _ _ _ Hmk) as Hdirs.
    rewrite Forall_forall in Hdirs |- *. intros q Hq.
    cbn [tree os' with_tree]. rewrite lookup_insert_ne.
    - by apply Hdirs.
    - intros ->. by apply ancestors_of_parent_ne in Hq. }
  rewrite Hnoop. unfold open_write, path_exists. cbn [tree with_tree].
  subst os'. cbn [tree with_tree]. rewrite lookup_insert_eq, Hrel.
  by rewrite insert_insert_eq.
Qed.

Lemma write_file_twice_witness :
  write_file demo_cfg "notes/todo.md" "one"
             (write_file demo_cfg "notes/todo.md" "one" demo_os).1
  = ((write_file demo_cfg "notes/todo.md" "one" demo_os).1,
     "Updated file: notes/todo.md").
Proof.
  destruct (write_file_twice demo_cfg demo_os "notes/todo.md" "one")
    as (rel & Hfirst & Hsecond).
  - exists "notes/todo.md". by left.
  - assert (rel = "notes/todo.md") as ->; [|exact Hsecond].
    destruct Hfirst as [H|H]; vm_compute in H; congruence.
Defined.

(** X8. The word in the report of [write_file] tells whether the target was
    there before the call: the parents made on the way do not count. *)
Theorem write_file_reports_existence cfg os p content :
  write_succeeded (write_file cfg p content os).2 →
  ∃ abs rel,
    resolve os p = Ok abs ∧
    relative_to abs (allowed_root cfg) = Ok rel ∧
    (write_file cfg p content os).2
    = (if path_exists os abs then "Updated" else "Created")
      +:+ " file: " +:+ str_rel rel ∧
    tree (write_file cfg p content os).1 !! abs = Some (File (Text content)).
Proof.
  intros (abs & root & reason & t & rel & Hres & Hroot & Hdec & Hmk & Hrel
          & Hnode & ->)%write_file_report.
  exists abs, rel. repeat split; try done. apply lookup_insert_eq.
Qed.

Lemma write_file_reports_existence_witness :
  ∃ abs rel,
    resolve demo_os "a.txt" = Ok abs ∧
    relative_to abs (allowed_root demo_cfg) = Ok rel ∧
    (write_file demo_cfg "a.txt" "x = 0" demo_os).2
    = (if path_exists demo_os abs then "Updated" else "Created")
      +:+ " file: " +:+ str_rel rel ∧
    tree (write_file demo_cfg "a.txt" "x = 0" demo_os).1 !! abs
    = Some (File (Text "x = 0")).
Proof.
  apply (write_file_reports_existence demo_cfg demo_os "a.txt" "x = 0").
  exists "a.txt". by right.
Defined.

(** Every way a call of [create_file] can leave the disk. *)
Lemma create_file_state cfg os p content :
  (create_file cfg p content os).1 = os ∨
  ∃ abs t,
    resolve os p = Ok abs ∧
    tree os !! abs = None ∧
    mkdir_from (tree os) [] (parent abs) = Ok t ∧
    ((create_file cfg p content os).1 = with_tree os t ∨
     (create_file cfg p content os).1
     = with_tree os (<[abs := File (Text content)]> t)).
Proof.
  unfold create_file.
  destruct (is_path_allowed cfg os p) as [[] reason]; cbn [negb]; [|by left].
  run_io. unfold mkdir_parents.
  destruct (resolve os p) as [abs|e]; [|by left].
  unfold path_exists. destruct (tree os !! abs) as [n|] eqn:Habs; [by left|].
  destruct (mkdir_from (tree os) [] (parent abs)) as [t|e] eqn:Hmk; [|by left].
  right. exists abs, t. repeat split; try done.
  unfold open_write. cbn [tree with_tree].
  destruct (t !! abs) as [[d| |target]|]; cbn [fst].
  - right. by destruct (relative_to abs (allowed_root cfg)).
  - by left.
  - by left.
  - right. by destruct (relative_to abs (allowed_root cfg)).
Qed.

(** X9. Whatever the outcome, [create_file] keeps every entry of the disk
    as it was: it adds, and never replaces. *)
Theorem create_file_preserves cfg os p content q n :
  tree os !! q = Some n →
  tree (create_file cfg p content os).1 !! q = Some n.
Proof.
  intros Hq.
  destruct (create_file_state cfg os p content)
    as [->|(abs & t & Hres & Habs & Hmk & Hstate)]; [done|].
  assert (Ht : t !! q = Some n) by by eapply mkdir_from_preserves.
  destruct Hstate as [-> | ->]; cbn [tree with_tree]; [done|].
  rewrite lookup_insert_ne; [done|]. congruence.
Qed.

Lemma create_file_preserves_witness :
  tree (create_file demo_cfg "notes/new.md" "fresh" demo_os).1
       !! (ws ++ ["a.txt"])
  = Some (File (Text ("x = 1" +:+ NL +:+ "x = 2" +:+ NL +:+ "x = 3"))).
Proof. by apply create_file_preserves. Defined.

(** X10. On a path that does not exist, [create_file] does to the disk
    what [write_file] does, and gives the same report when it succeeds. *)
Theorem create_file_like_write cfg os p content abs :
  resolve os p = Ok abs →
  path_exists os abs = false →
  (create_file cfg p content os).1 = (write_file cfg p content os).1 ∧
  (write_succeeded (write_file cfg p content os).2 →
   (create_file cfg p content os).2 = (write_file cfg p content os).2).
Proof.
  intros Hres Hex. unfold create_file, write_file.
  destruct (is_path_allowed cfg os p) as [[] reason]; cbn [negb];
    [|split; [done|by intros ?%denied_not_success]].
  run_io. unfold mkdir_parents. rewrite Hres, Hex.
  destruct (mkdir_from (tree os) [] (parent abs)) as [t|e] eqn:Hmk;
    [|split; [done|by intros ?%error_not_success]].
  assert (Hex' : path_exists (with_tree os t) abs = false).
  { unfold path_exists in *. cbn [tree with_tree].
    by rewrite (mkdir_parent_lookup _ _ _ Hmk). }
  rewrite Hex'. unfold open_write. cbn [tree with_tree].
  destruct (t !! abs) as [[d| |target]|];
    try (split; [done|by intros ?%error_not_success]);
    (destruct (relative_to abs (allowed_root cfg)) as [rel|e];
       [done|split; [done|by intros ?%error_not_success]]).
Qed.

Lemma create_file_like_write_witness :
  (create_file demo_cfg "notes/new.md" "fresh" demo_os).1
  = (write_file demo_cfg "notes/new.md" "fresh" demo_os).1.
Proof.
  refine (proj1 (create_file_like_write demo_cfg demo_os "notes/new.md"
                   "fresh" (ws ++ ["notes"; "new.md"]) _ _)); reflexivity.
Defined.



(** A directory is out of reach, and so is what the policy blocks. *)
Example delete_file_refusals :
  delete_file demo_cfg "src" demo_os
  = (demo_os, "Not a file (use delete_directory for directories): src") ∧
  delete_file demo_cfg ".git/config" demo_os
  = (demo_os, "Access denied: Blocked pattern: .git") ∧
  delete_file demo_cfg "missing.txt" demo_os
  = (demo_os, "File not found: missing.txt").
Proof. repeat split; reflexivity. Qed.

Lemma delete_file_regular cfg os p abs d :
  (is_path_allowed cfg os p).1 = true →
  resolve os p = Ok abs →
  tree os !! abs = Some (File d) →
  delete_file cfg p os
  = (with_tree os (delete abs (tree os)), "Deleted file: " +:+ p).
Proof.
  intros Hallowed Hres Habs. unfold delete_file.
  destruct (is_path_allowed cfg os p) as [allowed reason].
  cbn in Hallowed. subst allowed. cbn [negb]. run_io. rewrite Hres.
  unfold path_exists, is_file, unlink.
  by repeat (rewrite Habs; cbn beta iota; cbn [negb]).
Qed.

(** X12. Creating a file in a directory that is there, and deleting it
    again, gives back the disk as it was. *)
Theorem create_then_delete cfg os p content abs :
  (is_path_allowed cfg os p).1 = true →
  resolve os p = Ok abs →
  tree os !! abs = None →
  dirs_down_to (tree os) (parent abs) →
  delete_file cfg p (create_file cfg p content os).1
  = (os, "Deleted file: " +:+ p).
Proof.
  intros Hallowed Hres Habs Hdirs.
  destruct (is_path_allowed cfg os p) as [allowed reason] eqn:Hpolicy.
  cbn in Hallowed. subst allowed.
  apply is_path_allowed_true in Hpolicy as Hinv.
  destruct Hinv as (abs' & root & Hres' & Hroot & Hdec).
  assert (abs' = abs) as -> by congruence.
  pose proof (mkdir_from_noop _ _ _ Hdirs) as Hmk.
  assert (Hcreated : (create_file cfg p content os).1
                     = with_tree os (<[abs := File (Text content)]> (tree os))).
  { unfold create_file. rewrite Hpolicy. cbn [negb]. run_io.
    unfold mkdir_parents, path_exists. rewrite Hres, Habs, Hmk.
    unfold open_write. cbn [tree with_tree]. rewrite with_tree_same, Habs.
    by destruct (relative_to abs (allowed_root cfg)). }
  rewrite Hcreated.
  destruct (allowed_after_write cfg os p abs root reason (tree os) content)
    as [Hres1 Hallowed1]; [done..|by left|].
  rewrite (delete_file_regular _ _ _ abs (Text content));
    [|by rewrite Hallowed1|done|apply lookup_insert_eq].
  cbn [tree with_tree]. rewrite delete_insert_id by done.
  by destruct os.
Qed.

Lemma create_then_delete_witness :
  delete_file demo_cfg "src/new.py"
              (create_file demo_cfg "src/new.py" "pass" demo_os).1
  = (demo_os, "Deleted file: src/new.py").
Proof.
  apply (create_then_delete demo_cfg demo_os "src/new.py" "pass"
           (ws ++ ["src"; "new.py"])); try reflexivity.
  unfold dirs_down_to. by repeat constructor.
Defined.

(** * Creating directories and moving *)

Ltac not_created := intros [? H]; vm_compute in H; discriminate.



Example create_directory_deep :
  (create_directory demo_cfg "docs/api/v1" demo_os).2
  = "Created directory: docs/api/v1" ∧
  tree (create_directory demo_cfg "docs/api/v1" demo_os).1
       !! (ws ++ ["docs"; "api"]) = Some Dir.
Proof. split; reflexivity. Qed.

(** A successful [create_directory]. *)
Lemma create_directory_success cfg os p :
  directory_created (create_directory cfg p os).2 →
  ∃ abs root reason t,
    resolve os p = Ok abs ∧
    resolve os (allowed_root cfg) = Ok root ∧
    decision cfg os abs root = (true, reason) ∧
    same_links (tree os) t ∧
    t !! abs = None ∧
    (create_directory cfg p os).1 = with_tree os (<[abs := Dir]> t).
Proof.
  unfold create_directory.
  destruct (is_path_allowed cfg os p) as [allowed reason] eqn:Hallowed.
  destruct allowed; cbn [negb]; [|not_created].
  apply is_path_allowed_true in Hallowed
    as (abs & root & Hres & Hroot & Hdec).
  run_io. rewrite Hres. unfold path_exists.
  destruct (tree os !! abs) as [n|] eqn:Habs; [not_created|].
  unfold mkdir_new, os_mkdir. rewrite Habs.
  destruct (tree os !! parent abs) as [[d| |target]|] eqn:Hparent;
    try not_created.
  - destruct (relative_to abs (allowed_root cfg)); [|not_created].
    intros _. exists abs, root, reason, (tree os).
    split_and!; try done; apply same_links_refl.
  - run_io. unfold mkdir_parents.
    destruct (mkdir_from (tree os) [] (parent abs)) as [t|e] eqn:Hmk;
      [|not_created].
    cbn [tree with_tree].
    assert (Ht : t !! abs = None).
    { by rewrite (mkdir_parent_lookup _ _ _ Hmk). }
    rewrite Ht.
    destruct (t !! parent abs) as [[d| |target]|] eqn:Hparent';
      try not_created.
    destruct (relative_to abs (allowed_root cfg)); [|not_created].
    intros _. exists abs, root, reason, t.
    split_and!; try done; by eapply mkdir_from_same_links.
Qed.

(** X14. After [create_directory] has reported success, the same call
    again answers that the directory exists and changes nothing. *)
Theorem create_directory_twice cfg os p :
  directory_created (create_directory cfg p os).2 →
  create_directory cfg p (create_directory cfg p os).1
  = ((create_directory cfg p os).1, "Directory already exists: " +:+ p).
Proof.
  intros (abs & root & reason & t & Hres & Hroot & Hdec & Hlinks & Ht & ->)
         %create_directory_success.
  set (os' := with_tree os (<[abs := Dir]> t)).
  assert (Hlinks' : same_links (tree os) (tree os')).
  { eapply same_links_trans; [done|].
    apply same_links_insert; [congruence|done]. }
  assert (Hdir : tree os' !! abs = Some Dir) by apply lookup_insert_eq.
  assert (Hres' : resolve os' p = Ok abs).
  { by rewrite <- (resolve_same_links os os'). }
  assert (Hroot' : resolve os' (allowed_root cfg) = Ok root).
  { by rewrite <- (resolve_same_links os os'). }
  assert (Hallowed : is_path_allowed cfg os' p = (true, "OK")).
  { rewrite (is_path_allowed_resolved _ _ _ _ _ Hres' Hroot').
    revert Hdec. unfold decision, is_file, path_exists. rewrite Hdir.
    destruct (strip_parts root abs); [|done].
    by destruct (first_blocked _ _). }
  unfold create_directory. rewrite Hallowed. cbn [negb]. run_io.
  rewrite Hres'. unfold path_exists. by rewrite Hdir.
Qed.

Lemma create_directory_twice_witness :
  create_directory demo_cfg "docs/api"
                   (create_directory demo_cfg "docs/api" demo_os).1
  = ((create_directory demo_cfg "docs/api" demo_os).1,
     "Directory already exists: docs/api").
Proof.
  apply (create_directory_twice demo_cfg demo_os "docs/api").
  by exists "docs/api".
Defined.



(** [move_file] on a regular file, step by step. *)
Lemma move_file_regular cfg os source destination s d data :
  (is_path_allowed cfg os source).1 = true →
  (is_path_allowed cfg os destination).1 = true →
  resolve os source = Ok s →
  resolve os destination = Ok d →
  tree os !! s = Some (File data) →
  tree os !! d = None →
  move_file cfg source destination os
  = match mkdir_from (tree os) [] (parent d) with
    | Ok t =>
        (with_tree os (<[d := File data]> (delete s t)),
         "Moved: " +:+ source +:+ " to " +:+ destination)
    | Raise e => (os, "Error moving file: " +:+ str_exn e)
    end.
Proof.
  intros Hsrc Hdst Hs Hd Hdata Hfree. unfold move_file.
  destruct (is_path_allowed cfg os source) as [a1 r1].
  destruct (is_path_allowed cfg os destination) as [a2 r2].
  cbn in Hsrc, Hdst. subst a1 a2. cbn [negb]. run_io.
  rewrite Hs, Hd. unfold path_exists.
  rewrite Hdata; cbn beta iota; cbn [negb].
  rewrite Hfree; cbn beta iota.
  unfold mkdir_parents.
  destruct (mkdir_from (tree os) [] (parent d)) as [t|e] eqn:Hmk; [|done].
  unfold rename, os_rename. cbn [tree with_tree].
  by rewrite (mkdir_from_preserves _ _ _ _ _ _ Hmk Hdata).
Qed.

Lemma moved_not_other source destination :
  (∀ r, "Source access denied: " +:+ r
        ≠ "Moved: " +:+ source +:+ " to " +:+ destination) ∧
  (∀ r, "Destination access denied: " +:+ r
        ≠ "Moved: " +:+ source +:+ " to " +:+ destination) ∧
  (∀ r, "Error moving file: " +:+ r
        ≠ "Moved: " +:+ source +:+ " to " +:+ destination) ∧
  "Source file not found: " +:+ source
  ≠ "Moved: " +:+ source +:+ " to " +:+ destination ∧
  "Destination already exists: " +:+ destination
  ≠ "Moved: " +:+ source +:+ " to " +:+ destination.
Proof. repeat split; intros; intros H; vm_compute in H; discriminate. Qed.

(** A move of a regular file that is reported as done. *)
Lemma move_file_done cfg os source destination s d data :
  resolve os source = Ok s →
  resolve os destination = Ok d →
  tree os !! s = Some (File data) →
  (move_file cfg source destination os).2
  = "Moved: " +:+ source +:+ " to " +:+ destination →
  ∃ t,
    (is_path_allowed cfg os source).1 = true ∧
    (is_path_allowed cfg os destination).1 = true ∧
    tree os !! d = None ∧
    mkdir_from (tree os) [] (parent d) = Ok t ∧
    (move_file cfg source destination os).1
    = with_tree os (<[d := File data]> (delete s t)).
Proof.
  intros Hs Hd Hdata.
  destruct (moved_not_other source destination)
    as (Hn1 & Hn2 & Hn3 & Hn4 & Hn5).
  destruct (is_path_allowed cfg os source) as [a1 r1] eqn:H1.
  destruct (is_path_allowed cfg os destination) as [a2 r2] eqn:H2.
  destruct a1; [|unfold move_file; rewrite H1; cbn; intros E; by apply Hn1 in E].
  destruct a2;
    [|unfold move_file; rewrite H1, H2; cbn; intros E; by apply Hn2 in E].
  destruct (tree os !! d) as [n|] eqn:Hfree.
  { unfold move_file. rewrite H1, H2. cbn [negb]. run_io.
    rewrite Hs, Hd. unfold path_exists.
    rewrite Hdata; cbn beta iota; cbn [negb].
    rewrite Hfree; cbn beta iota.
    intros E; by apply Hn5 in E. }
  rewrite (move_file_regular cfg os source destination s d data);
    [|by rewrite H1|by rewrite H2|done..].
  destruct (mkdir_from (tree os) [] (parent d)) as [t|e] eqn:Hmk.
  - intros _. by exists t.
  - cbn. intros E; by apply Hn3 in E.
Qed.

(** X16. When [move_file] reports a regular file as moved, the destination
    was free and now holds the file, the source is gone, every other entry
    is as it was, and what else is new are directories above the
    destination. *)
Theorem move_file_moves_one cfg os source destination s d data :
  resolve os source = Ok s →
  resolve os destination = Ok d →
  tree os !! s = Some (File data) →
  (move_file cfg source destination os).2
  = "Moved: " +:+ source +:+ " to " +:+ destination →
  tree os !! d = None ∧
  tree (move_file cfg source destination os).1 !! d = Some (File data) ∧
  tree (move_file cfg source destination os).1 !! s = None ∧
  ∀ q, q ≠ s → q ≠ d →
       (∀ n, tree os !! q = Some n →
             tree (move_file cfg source destination os).1 !! q = Some n) ∧
       (tree os !! q = None →
        tree (move_file cfg source destination os).1 !! q = None ∨
        tree (move_file cfg source destination os).1 !! q = Some Dir ∧
        q `prefix_of` d).
Proof.
  intros Hs Hd Hdata Hmsg.
  destruct (move_file_done _ _ _ _ _ _ _ Hs Hd Hdata Hmsg)
    as (t & _ & _ & Hfree & Hmk & ->).
  cbn [tree with_tree]. split; [done|]. split; [apply lookup_insert_eq|].
  assert (Hne : d ≠ s) by congruence.
  split; [by rewrite lookup_insert_ne, lookup_delete_eq|].
  intros q Hqs Hqd.
  rewrite lookup_insert_ne, lookup_delete_ne by done. split.
  - intros n Hn. by eapply mkdir_from_preserves.
  - intros Hq. destruct (mkdir_from_new _ _ _ _ q Hmk Hq) as [?|[Hdir Hin]];
      [by left|].
    right. split; [done|].
    apply ancestors_from_prefix in Hin as [Hpre _].
    by apply removelast_prefix_of.
Qed.

Lemma move_file_moves_one_witness :
  tree (move_file demo_cfg "a.txt" "docs/b.md" demo_os).1
       !! (ws ++ ["docs"; "b.md"])
  = Some (File (Text ("x = 1" +:+ NL +:+ "x = 2" +:+ NL +:+ "x = 3"))).
Proof.
  refine (proj1 (proj2 (move_file_moves_one demo_cfg demo_os
                          "a.txt" "docs/b.md" (ws ++ ["a.txt"])
                          (ws ++ ["docs"; "b.md"]) _ _ _ _ _)));
    reflexivity.
Defined.

(** The refusals of [move_file] leave the disk as it was. *)
Example move_file_refusals :
  move_file demo_cfg "a.txt" "aaa.txt" demo_os
  = (demo_os, "Destination already exists: aaa.txt") ∧
  move_file demo_cfg "missing.txt" "b.txt" demo_os
  = (demo_os, "Source file not found: missing.txt") ∧
  move_file demo_cfg "a.txt" "../b.txt" demo_os
  = (demo_os, "Destination access denied: "
              +:+ "Path outside allowed directory: /home/user/ws") ∧
  move_file demo_cfg "src" "src/sub/x" demo_os
  = (with_tree demo_os (<[ws ++ ["src"; "sub"] := Dir]> demo_tree),
     "Error moving file: [Errno 22] Invalid argument: '/home/user/ws/src'"
     +:+ " -> '/home/user/ws/src/sub/x'").
Proof. repeat split; reflexivity. Qed.

Lemma same_links_delete t (p : path) :
  (∀ target, t !! p ≠ Some (Link target)) → same_links t (delete p t).
Proof.
  intros Hold q target. destruct (decide (p = q)) as [<-|Hne].
  - rewrite lookup_delete_eq. split; [by intros ?%Hold|done].
  - by rewrite lookup_delete_ne.
Qed.

(** Whether a path names a regular file or nothing makes no difference to
    the policy. *)
Lemma is_path_allowed_file_or_free cfg os os' p c :
  cwd os = cwd os' →
  same_links (tree os) (tree os') →
  resolve os p = Ok c →
  (∃ d, tree os !! c = Some (File d)) ∨ tree os !! c = None →
  (∃ d, tree os' !! c = Some (File d)) ∨ tree os' !! c = None →
  is_path_allowed cfg os' p = is_path_allowed cfg os p.
Proof.
  intros Hcwd Hlinks Hres Hold Hnew. unfold is_path_allowed.
  rewrite <- !(resolve_same_links os os') by done. rewrite Hres.
  destruct (resolve os (allowed_root cfg)) as [root|e]; [|done].
  cbn [mbind result_bind mret result_ret].
  unfold is_file, path_exists.
  by destruct Hold as [[d0 ->]| ->], Hnew as [[d1 ->]| ->].
Qed.

(** The disk after a regular file has moved, seen from the policy. *)
Lemma moved_same_links os (s d : path) data t :
  tree os !! s = Some (File data) →
  tree os !! d = None →
  mkdir_from (tree os) [] (parent d) = Ok t →
  same_links (tree os) (<[d := File data]> (delete s t)).
Proof.
  intros Hdata Hfree Hmk.
  eapply same_links_trans; [by eapply mkdir_from_same_links|].
  eapply same_links_trans.
  - apply (same_links_delete _ s). intros target.
    by rewrite (mkdir_from_preserves _ _ _ _ _ _ Hmk Hdata).
  - apply same_links_insert; [|done]. intros target.
    destruct (decide (d = s)) as [->|Hne]; [by rewrite lookup_delete_eq|].
    rewrite lookup_delete_ne by done.
    by rewrite (mkdir_parent_lookup _ _ _ Hmk), Hfree.
Qed.

Lemma read_file_on_file cfg os p abs d :
  (is_path_allowed cfg os p).1 = true →
  resolve os p = Ok abs →
  tree os !! abs = Some (File d) →
  read_file cfg os p
  = if (max_file_size cfg <? data_size d)%N then
      "File too large: " +:+ str_of_N (data_size d) +:+ " bytes (max: "
      +:+ str_of_N (max_file_size cfg) +:+ ")"
    else
      match d with
      | Text s => universal_newlines s
      | Binary _ =>
          "File appears to be binary or uses unsupported encoding: " +:+ p
      end.
Proof.
  intros Hallowed Hres Hnode. unfold read_file.
  destruct (is_path_allowed cfg os p) as [allowed reason].
  cbn in Hallowed. subst allowed. cbn [negb]. rewrite Hres.
  cbn [mbind result_bind].
  unfold path_exists, is_file, check_file_size, getsize, open_read.
  rewrite Hnode. cbn [negb].
  destruct d; cbn [data_size]; by destruct (_ <? _)%N.
Qed.

(** X17. After a text file is reported as moved, reading the destination
    gives what reading the source gave before the move, the size message
    for a file above the limit included. *)
Theorem move_then_read cfg os source destination s d text :
  resolve os source = Ok s →
  resolve os destination = Ok d →
  tree os !! s = Some (File (Text text)) →
  (move_file cfg source destination os).2
  = "Moved: " +:+ source +:+ " to " +:+ destination →
  read_file cfg (move_file cfg source destination os).1 destination
  = read_file cfg os source.
Proof.
  intros Hs Hd Hdata Hmsg.
  destruct (move_file_done _ _ _ _ _ _ _ Hs Hd Hdata Hmsg)
    as (t & Hsrc & Hdst & Hfree & Hmk & ->).
  pose proof (moved_same_links _ _ _ _ _ Hdata Hfree Hmk) as Hlinks.
  set (os' := with_tree os (<[d := File (Text text)]> (delete s t))).
  assert (Hnew : tree os' !! d = Some (File (Text text)))
    by apply lookup_insert_eq.
  rewrite (read_file_on_file cfg os source s (Text text)) by done.
  rewrite (read_file_on_file cfg os' destination d (Text text)); [done| |
    by rewrite <- (resolve_same_links os os')|done].
  rewrite (is_path_allowed_file_or_free cfg os os' destination d);
    [done..| |]; [by right|by left; eexists].
Qed.

Lemma move_then_read_witness :
  read_file demo_cfg (move_file demo_cfg "a.txt" "docs/b.md" demo_os).1
            "docs/b.md"
  = read_file demo_cfg demo_os "a.txt".
Proof.
  apply (move_then_read demo_cfg demo_os "a.txt" "docs/b.md"
           (ws ++ ["a.txt"]) (ws ++ ["docs"; "b.md"])
           ("x = 1" +:+ NL +:+ "x = 2" +:+ NL +:+ "x = 3"));
    reflexivity.
Defined.

(** X18. Moving a regular file to a free name in a directory that is there,
    and moving it back, gives back the disk as it was. *)
Theorem move_there_and_back cfg os source destination s d data :
  (is_path_allowed cfg os source).1 = true →
  (is_path_allowed cfg os destination).1 = true →
  resolve os source = Ok s →
  resolve os destination = Ok d →
  tree os !! s = Some (File data) →
  tree os !! d = None →
  dirs_down_to (tree os) (parent s) →
  dirs_down_to (tree os) (parent d) →
  move_file cfg destination source
            (move_file cfg source destination os).1
  = (os, "Moved: " +:+ destination +:+ " to " +:+ source).
Proof.
  intros Hsrc Hdst Hs Hd Hdata Hfree Hps Hpd.
  pose proof (mkdir_from_noop _ _ _ Hpd) as Hmk.
  rewrite (move_file_regular cfg os source destination s d data) by done.
  rewrite Hmk. cbn [fst].
  pose proof (moved_same_links _ _ _ _ _ Hdata Hfree Hmk) as Hlinks.
  set (os' := with_tree os (<[d := File data]> (delete s (tree os)))).
  assert (Hne : d ≠ s) by congruence.
  assert (Hnew : tree os' !! d = Some (File data)) by apply lookup_insert_eq.
  assert (Hgone : tree os' !! s = None).
  { unfold os'. cbn [tree with_tree].
    by rewrite lookup_insert_ne, lookup_delete_eq. }
  assert (Hps' : dirs_down_to (tree os') (parent s)).
  { unfold dirs_down_to. eapply Forall_impl; [exact Hps|]. intros q Hq.
    cbn beta in Hq.
    unfold os'. cbn [tree with_tree].
    rewrite lookup_insert_ne, lookup_delete_ne; [done|congruence..]. }
  rewrite (move_file_regular cfg os' destination source d s data).
  - rewrite (mkdir_from_noop _ _ _ Hps'). unfold os'. cbn [tree with_tree].
    rewrite delete_insert_id by (by rewrite lookup_delete_ne).
    rewrite (insert_delete_id _ _ _ Hdata). by destruct os.
  - rewrite (is_path_allowed_file_or_free cfg os os' destination d);
      [done..| |]; [by right|by left; eexists].
  - rewrite (is_path_allowed_file_or_free cfg os os' source s);
      [done..| |]; [by left; eexists|by right].
  - by rewrite <- (resolve_same_links os os').
  - by rewrite <- (resolve_same_links os os').
  - done.
  - done.
Qed.

Lemma move_there_and_back_witness :
  move_file demo_cfg "src/b.md" "a.txt"
            (move_file demo_cfg "a.txt" "src/b.md" demo_os).1
  = (demo_os, "Moved: src/b.md to a.txt").
Proof.
  apply (move_there_and_back demo_cfg demo_os "a.txt" "src/b.md"
           (ws ++ ["a.txt"]) (ws ++ ["src"; "b.md"])
           (Text ("x = 1" +:+ NL +:+ "x = 2" +:+ NL +:+ "x = 3")));
    try reflexivity; unfold dirs_down_to; by repeat constructor.
Defined.

(** * More on the exact-text edit *)

(** *** Carriage returns *)

Lemma universal_newlines_no_cr s :
  str_contains (String CR "") (universal_newlines s) = false.
Proof.
  remember (String.length s) as n eqn:Hn. revert s Hn.
  induction n as [n IH] using lt_wf_ind. intros s Hn.
  destruct s as [|c s]; [done|]. cbn [universal_newlines].
  destruct (Ascii.eqb_spec c CR) as [->|Hc].
  - destruct s as [|c' s].
    + done.
    + assert (H1 : str_contains (String CR "") (universal_newlines s) = false).
      { apply (IH (String.length s)); [subst n; cbn; lia|done]. }
      assert (H2 : str_contains (String CR "")
                     (universal_newlines (String c' s)) = false).
      { apply (IH (String.length (String c' s))); [subst n; cbn; lia|done]. }
      destruct (Ascii.eqb c' LF); cbn [str_contains];
        rewrite str_prefix_cons; cbn; by rewrite ?H1, ?H2.
  - cbn [str_contains]. rewrite str_prefix_cons.
    destruct (ascii_dec CR c) as [<-|_]; [done|]. cbn [orb].
    apply (IH (String.length s)); [subst n; cbn; lia|done].
Qed.

Lemma no_char_cons ch c s :
  str_contains (String ch "") (String c s) = false ↔
  ch ≠ c ∧ str_contains (String ch "") s = false.
Proof.
  cbn [str_contains]. rewrite str_prefix_cons.
  destruct (ascii_dec ch c) as [->|Hne].
  - rewrite str_prefix_nil. cbn. split; [done|]. by intros [? _].
  - cbn [orb]. split; [done|]. by intros [_ ?].
Qed.

Lemma replace_scan_no_char ch old new limit skip s :
  str_contains (String ch "") new = false →
  str_contains (String ch "") s = false →
  str_contains (String ch "") (replace_scan old new limit skip s) = false.
Proof.
  intros Hnew. revert limit skip.
  induction s as [|c s IH]; intros limit skip Hs; [done|].
  apply no_char_cons in Hs as [Hc Hs]. cbn [replace_scan].
  destruct skip as [|k]; [|by apply IH].
  destruct (negb (spent limit) && String.prefix old (String c s)).
  - rewrite str_contains_char_app, Hnew. cbn [orb]. by apply IH.
  - apply no_char_cons. split; [done|]. by apply IH.
Qed.

Lemma interleave_no_char ch new limit s :
  str_contains (String ch "") new = false →
  str_contains (String ch "") s = false →
  str_contains (String ch "") (interleave new limit s) = false.
Proof.
  intros Hnew. revert limit.
  induction s as [|c s IH]; intros limit Hs.
  - cbn [interleave]. by destruct (spent limit).
  - cbn [interleave]. destruct (spent limit); [done|].
    apply no_char_cons in Hs as [Hc Hs].
    rewrite str_contains_char_app, Hnew. cbn [orb].
    apply no_char_cons. split; [done|]. by apply IH.
Qed.

Lemma str_replace_no_char ch s old new limit :
  str_contains (String ch "") new = false →
  str_contains (String ch "") s = false →
  str_contains (String ch "") (str_replace s old new limit) = false.
Proof.
  intros Hnew Hs. destruct old as [|a o]; cbn [str_replace].
  - by apply interleave_no_char.
  - by apply replace_scan_no_char.
Qed.

(** *** Replacing a string by itself *)

Lemma replace_scan_same a o limit s :
  replace_scan (String a o) (String a o) limit 0 s = s.
Proof.
  remember (String.length s) as n eqn:Hn. revert limit s Hn.
  induction n as [n IH] using lt_wf_ind. intros limit s Hn.
  destruct s as [|c s]; [done|].
  destruct (negb (spent limit) && String.prefix (String a o) (String c s))
    eqn:E.
  - apply andb_true_iff in E as [Hl Hp]. apply negb_true_iff in Hl.
    apply str_prefix_inv in Hp as [r Hr]. rewrite Hr.
    rewrite replace_scan_match by done. f_equal.
    apply (IH (String.length r)); [|done].
    subst n. rewrite Hr, str_length_app. cbn. lia.
  - cbn [replace_scan]. rewrite E. f_equal.
    apply (IH (String.length s)); [subst n; cbn; lia|done].
Qed.

Lemma interleave_same limit s : interleave "" limit s = s.
Proof.
  revert limit. induction s as [|c s IH]; intros limit; cbn [interleave].
  - by destruct (spent limit).
  - destruct (spent limit); [done|]. by rewrite str_app_nil_l, IH.
Qed.

Lemma str_replace_same s old limit : str_replace s old old limit = s.
Proof.
  destruct old as [|a o]; cbn [str_replace].
  - apply interleave_same.
  - apply replace_scan_same.
Qed.

(** *** What an edit can touch *)

(** Every way a call of [edit_file] can leave the disk. *)
Lemma edit_file_state cfg os p old new replace_all :
  (edit_file cfg p old new replace_all os).1 = os ∨
  ∃ abs disk,
    (is_path_allowed cfg os p).1 = true ∧
    resolve os p = Ok abs ∧
    tree os !! abs = Some (File (Text disk)) ∧
    (utf8_size disk ≤ max_file_size cfg)%N ∧
    str_contains old (universal_newlines disk) = true ∧
    (edit_file cfg p old new replace_all os).1
    = with_file os abs
        (str_replace (universal_newlines disk) old new
                     (if replace_all then None else Some 1)).
Proof.
  destruct (is_path_allowed cfg os p) as [[] reason] eqn:Hallowed;
    [|left; unfold edit_file; by rewrite Hallowed].
  destruct (resolve os p) as [abs|e] eqn:Hres;
    [|left; unfold edit_file; rewrite Hallowed; cbn [negb]; run_io;
      by rewrite Hres].
  destruct (tree os !! abs) as [[[disk|size]| |target]|] eqn:Hnode.
  - destruct (N.ltb_spec (max_file_size cfg) (utf8_size disk)) as [Hbig|Hfit].
    + left. unfold edit_file. rewrite Hallowed. cbn [negb]. run_io.
      rewrite Hres. unfold path_exists, is_file, check_file_size, getsize.
      repeat (rewrite Hnode; cbn beta iota; cbn [negb]).
      apply N.ltb_lt in Hbig. by rewrite Hbig.
    + rewrite (edit_file_on_text cfg os p old new replace_all reason abs disk)
        by done.
      cbn zeta.
      destruct (str_contains old (universal_newlines disk)) eqn:Hc;
        cbn [negb]; [|by left].
      destruct replace_all; cbn [negb andb].
      * right. by exists abs, disk.
      * destruct (Nat.ltb 1 _); [by left|]. right. by exists abs, disk.
  - left. unfold edit_file. rewrite Hallowed. cbn [negb]. run_io.
    rewrite Hres.
    unfold path_exists, is_file, check_file_size, getsize, open_read.
    repeat (rewrite Hnode; cbn beta iota; cbn [negb]).
    destruct (max_file_size cfg <? size)%N; cbn beta iota; cbn [negb];
      [done|].
    by repeat (rewrite Hnode; cbn beta iota; cbn [negb]).
  - left. unfold edit_file. rewrite Hallowed. cbn [negb]. run_io.
    rewrite Hres. unfold path_exists, is_file.
    by repeat (rewrite Hnode; cbn beta iota; cbn [negb]).
  - left. unfold edit_file. rewrite Hallowed. cbn [negb]. run_io.
    rewrite Hres. unfold path_exists, is_file.
    by repeat (rewrite Hnode; cbn beta iota; cbn [negb]).
  - left. unfold edit_file. rewrite Hallowed. cbn [negb]. run_io.
    rewrite Hres. unfold path_exists, is_file.
    by repeat (rewrite Hnode; cbn beta iota; cbn [negb]).
Qed.


(** The refusals of [edit_file] leave the disk as it was. *)
Example edit_file_refusals :
  edit_file demo_cfg "src" "a" "b" true demo_os
  = (demo_os, "Not a file: src") ∧
  edit_file demo_cfg "out/passwd" "root" "toor" true demo_os
  = (demo_os, "Access denied: Path outside allowed directory: /home/user/ws") ∧
  edit_file demo_cfg ".git/config" "core" "x" true demo_os
  = (demo_os, "Access denied: Blocked pattern: .git").
Proof. repeat split; reflexivity. Qed.

Lemma unique_or_all replace_all content old :
  replace_all = true ∨ str_count content old ≤ 1 →
  negb replace_all && Nat.ltb 1 (str_count content old) = false.
Proof.
  intros [->|Hle]; [done|]. apply andb_false_iff. right.
  apply Nat.ltb_ge. lia.
Qed.

(** An edit that goes through, on an editable file. *)
Lemma edit_file_through cfg os p old new replace_all abs content :
  editable cfg os p abs content →
  str_contains old content = true →
  replace_all = true ∨ str_count content old ≤ 1 →
  (edit_file cfg p old new replace_all os).1
  = with_file os abs
      (str_replace content old new (if replace_all then None else Some 1)).
Proof.
  intros Hed Hc Hu.
  rewrite (edit_file_editable cfg os p old new replace_all abs content)
    by done.
  by rewrite Hc, (unique_or_all _ _ _ Hu).
Qed.

(** X20. An edit that replaces a string by itself, when it goes through,
    is not a no-op: the file is written back as it was read, that is, with
    every carriage return, alone or before a line feed, turned into a line
    feed. *)
Theorem edit_same_string cfg os p old replace_all abs disk :
  (is_path_allowed cfg os p).1 = true →
  resolve os p = Ok abs →
  tree os !! abs = Some (File (Text disk)) →
  (utf8_size disk ≤ max_file_size cfg)%N →
  str_contains old (universal_newlines disk) = true →
  replace_all = true ∨ str_count (universal_newlines disk) old ≤ 1 →
  (edit_file cfg p old old replace_all os).1
  = with_file os abs (universal_newlines disk).
Proof.
  intros Hallowed Hres Hnode Hsize Hc Hu.
  assert (Hed : editable cfg os p abs (universal_newlines disk)).
  { unfold editable. split_and!; try done.
    - unfold check_file_size, getsize. rewrite Hnode.
      apply N.ltb_ge in Hsize. by rewrite Hsize.
    - unfold open_read. by rewrite Hnode. }
  rewrite (edit_file_through cfg os p old old replace_all abs
             (universal_newlines disk)) by done.
  by rewrite str_replace_same.
Qed.

Lemma edit_same_string_witness :
  (edit_file demo_cfg "dos.txt" "one" "one" false dos_os).1
  = with_file dos_os (ws ++ ["dos.txt"])
              ("one" +:+ NL +:+ "two" +:+ NL).
Proof.
  apply (edit_same_string demo_cfg dos_os "dos.txt" "one" false
           (ws ++ ["dos.txt"]) ("one" +:+ CRLF +:+ "two" +:+ CRLF));
    try reflexivity.
  - vm_compute. discriminate.
  - right. vm_compute. lia.
Defined.

(** X21. Whenever [edit_file] changes the disk and [new_string] has no
    carriage return, the file an allowed path resolves to holds text
    without any carriage return afterwards, whatever line endings it had
    before. *)
Theorem edit_leaves_no_cr cfg os p old new replace_all :
  (edit_file cfg p old new replace_all os).1 ≠ os →
  str_contains (String CR "") new = false →
  ∃ abs text,
    resolve os p = Ok abs ∧
    tree (edit_file cfg p old new replace_all os).1 !! abs
    = Some (File (Text text)) ∧
    str_contains (String CR "") text = false.
Proof.
  intros Hchanged Hnew.
  destruct (edit_file_state cfg os p old new replace_all)
    as [Hsame|(abs & disk & _ & Hres & _ & _ & _ & Hstate)]; [done|].
  exists abs. eexists. split; [done|]. rewrite Hstate. split.
  - apply lookup_insert_eq.
  - apply str_replace_no_char; [done|apply universal_newlines_no_cr].
Qed.

Lemma edit_leaves_no_cr_witness :
  ∃ abs text,
    resolve dos_os "dos.txt" = Ok abs ∧
    tree (edit_file demo_cfg "dos.txt" "two" "2" false dos_os).1 !! abs
    = Some (File (Text text)) ∧
    str_contains (String CR "") text = false.
Proof.
  apply (edit_leaves_no_cr demo_cfg dos_os "dos.txt" "two" "2" false);
    [|reflexivity].
  intros H.
  apply (f_equal (λ os, tree os !! (ws ++ ["dos.txt"]))) in H.
  vm_compute in H. discriminate.
Defined.

(** X22. After an edit that goes through, with a [new_string] without
    carriage return and a result within the size limit, [read_file] on the
    same path returns the text with the replacement made. *)
Theorem edit_then_read cfg os p old new replace_all abs content :
  editable cfg os p abs content →
  str_contains old content = true →
  replace_all = true ∨ str_count content old ≤ 1 →
  str_contains (String CR "") new = false →
  (utf8_size (str_replace content old new
                          (if replace_all then None else Some 1%nat))
   ≤ max_file_size cfg)%N →
  read_file cfg (edit_file cfg p old new replace_all os).1 p
  = str_replace content old new (if replace_all then None else Some 1).
Proof.
  intros Hed Hc Hu Hnew Hsize.
  rewrite (edit_file_through cfg os p old new replace_all abs content)
    by done.
  set (text := str_replace content old new _) in *.
  destruct (editable_inv _ _ _ _ _ Hed)
    as (reason & disk & Hallowed & Hres & Hnode & _ & Hcontent).
  destruct (with_file_same_shape os abs (Text disk) text Hnode)
    as [Hlinks Hkinds].
  rewrite (read_file_on_file cfg (with_file os abs text) p abs (Text text)).
  - cbn [data_size]. apply N.ltb_ge in Hsize. rewrite Hsize.
    apply no_cr_universal_newlines. unfold text.
    apply str_replace_no_char; [done|]. subst content.
    apply universal_newlines_no_cr.
  - rewrite <- (is_path_allowed_same_shape cfg os) by done.
    by rewrite Hallowed.
  - by rewrite <- (resolve_same_links os).
  - apply lookup_insert_eq.
Qed.

Lemma edit_then_read_witness :
  read_file demo_cfg (edit_file demo_cfg "a.txt" "x = " "y = " true demo_os).1
            "a.txt"
  = "y = 1" +:+ NL +:+ "y = 2" +:+ NL +:+ "y = 3".
Proof.
  apply (edit_then_read demo_cfg demo_os "a.txt" "x = " "y = " true
           (ws ++ ["a.txt"])
           ("x = 1" +:+ NL +:+ "x = 2" +:+ NL +:+ "x = 3"));
    [apply demo_a_editable|reflexivity|by left|reflexivity|].
  vm_compute. discriminate.
Defined.

(** * More on search *)

Lemma scan_lines_lower t1 t2 rel_path i lines :
  str_lower t1 = str_lower t2 →
  scan_lines t1 rel_path i lines = scan_lines t2 rel_path i lines.
Proof.
  intros Ht. revert i. induction lines as [|line rest IH]; intros i; [done|].
  cbn [scan_lines]. by rewrite Ht, IH.
Qed.

Lemma collect_results_lower rglob cfg os t1 t2 directory file_pattern :
  str_lower t1 = str_lower t2 →
  collect_results rglob cfg os t1 directory file_pattern
  = collect_results rglob cfg os t2 directory file_pattern.
Proof.
  intros Ht. unfold collect_results.
  destruct (resolve os directory) as [search_path|e]; [|done].
  cbn [mbind result_bind].
  destruct (rglob os search_path file_pattern) as [found|e]; [|done].
  cbn [mbind result_bind mret result_ret]. f_equal.
  induction found as [|file_path rest IH]; [done|].
  cbn [flat_map]. rewrite IH. f_equal. unfold search_one.
  destruct (negb _); [done|].
  destruct (resolve os (str_path file_path)) as [target|e]; [|done].
  destruct (tree os !! target) as [[[s|size]| |link]|]; try done.
  destruct (strip_parts search_path file_path); [|done].
  by apply scan_lines_lower.
Qed.

(** X23. The search does not see the case of the letters of the term: two
    terms that are equal once lowered give the same answer, apart from the
    answer that there is no match, which quotes the term as it was given. *)
Theorem search_case_insensitive rglob cfg os t1 t2 directory file_pattern :
  str_lower t1 = str_lower t2 →
  search_in_files rglob cfg os t1 directory file_pattern
  = search_in_files rglob cfg os t2 directory file_pattern ∨
  (search_in_files rglob cfg os t1 directory file_pattern
   = "No matches found for '" +:+ t1 +:+ "'" ∧
   search_in_files rglob cfg os t2 directory file_pattern
   = "No matches found for '" +:+ t2 +:+ "'").
Proof.
  intros Ht. unfold search_in_files.
  destruct (is_path_allowed cfg os directory) as [[] reason]; cbn [negb];
    [|by left].
  rewrite (collect_results_lower rglob cfg os t1 t2) by done.
  destruct (collect_results _ _ _ _ _ _) as [[|entry rest]|e];
    [by right|by left..].
Qed.

Lemma search_case_insensitive_witness :
  search_in_files rglob_all demo_cfg demo_os "OS" "." "*"
  = search_in_files rglob_all demo_cfg demo_os "os" "." "*" ∨
  (search_in_files rglob_all demo_cfg demo_os "OS" "." "*"
   = "No matches found for 'OS'" ∧
   search_in_files rglob_all demo_cfg demo_os "os" "." "*"
   = "No matches found for 'os'").
Proof.
  apply (search_case_insensitive rglob_all demo_cfg demo_os "OS" "os").
  reflexivity.
Defined.

(** The entries of one file are its matching lines, numbered from [k]. *)
Lemma scan_lines_exact search_term rel_path k lines entry :
  entry ∈ scan_lines search_term rel_path k lines ↔
  ∃ i line,
    lines !! i = Some line ∧
    str_contains (str_lower search_term) (str_lower line) = true ∧
    entry = rel_path +:+ ":" +:+ str_of_nat (k + i) +:+ ": "
            +:+ str_strip line.
Proof.
  revert k. induction lines as [|first rest IH]; intros k.
  - cbn [scan_lines]. split; [by intros ?%elem_of_nil|].
    by intros (i & line & ? & _).
  - cbn [scan_lines].
    assert (Hlater :
      entry ∈ scan_lines search_term rel_path (S k) rest ↔
      ∃ i line,
        (first :: rest) !! S i = Some line ∧
        str_contains (str_lower search_term) (str_lower line) = true ∧
        entry = rel_path +:+ ":" +:+ str_of_nat (k + S i) +:+ ": "
                +:+ str_strip line).
    { rewrite IH. split; intros (i & line & Hi & Hc & ->); exists i, line;
        (split_and!; [done..|]); do 4 f_equal; lia. }
    destruct (str_contains (str_lower search_term) (str_lower first)) eqn:Hc.
    + rewrite elem_of_cons, Hlater. split.
      * intros [->|(i & line & Hi & Hl & ->)].
        -- exists 0, first. by rewrite Nat.add_0_r.
        -- by exists (S i), line.
      * intros (i & line & Hi & Hl & ->). destruct i as [|i].
        -- left. injection Hi as <-. by rewrite Nat.add_0_r.
        -- right. by exists i, line.
    + rewrite Hlater. split.
      * intros (i & line & Hi & Hl & ->). by exists (S i), line.
      * intros (i & line & Hi & Hl & ->). destruct i as [|i].
        -- injection Hi as <-. congruence.
        -- by exists i, line.
Qed.

Lemma search_one_exact cfg os search_path search_term file_path entry :
  entry ∈ search_one cfg os search_path search_term file_path ↔
  reports_line cfg os search_path search_term file_path entry.
Proof.
  unfold search_one, reports_line.
  destruct (is_path_allowed cfg os (str_path file_path)) as [[] reason];
    cbn [fst negb].
  2:{ split; [by intros ?%elem_of_nil|]. by intros (?&?&?&?&?&?&_). }
  destruct (resolve os (str_path file_path)) as [target|e].
  2:{ split; [by intros ?%elem_of_nil|]. by intros (?&?&?&?&?&_&?&_). }
  destruct (tree os !! target) as [[[s|size]| |link]|] eqn:Hnode;
    try (split; [by intros ?%elem_of_nil|];
         intros (?&?&?&?&?&_&[= <-]&?&_); congruence).
  destruct (strip_parts search_path file_path) as [rel_path|].
  2:{ split; [by intros ?%elem_of_nil|]. by intros (?&?&?&?&?&_&_&_&?&_). }
  rewrite scan_lines_exact. split.
  - intros (i & line & Hi & Hc & ->). by exists target, s, rel_path, i, line.
  - intros (t' & text & rel & i & line & _ & [= <-] & Htext & [= <-] & Hi
            & Hc & ->).
    assert (text = s) as -> by congruence. by exists i, line.
Qed.

(** X24. What the search collects is exact: an entry is among the results
    if and only if it reports a line, holding the term in any case, of a
    text file that the directory scan has found and the policy allows.
    Files the policy denies, directories and files that do not decode
    contribute nothing. *)
Theorem search_results_exact rglob cfg os search_term directory file_pattern
    search_path found :
  resolve os directory = Ok search_path →
  rglob os search_path file_pattern = Ok found →
  ∃ results,
    collect_results rglob cfg os search_term directory file_pattern
    = Ok results ∧
    ∀ entry,
      entry ∈ results ↔
      ∃ file_path,
        file_path ∈ found ∧
        reports_line cfg os search_path search_term file_path entry.
Proof.
  intros Hres Hfound. unfold collect_results. rewrite Hres.
  cbn [mbind result_bind]. rewrite Hfound.
  cbn [mbind result_bind mret result_ret].
  eexists. split; [done|]. intros entry.
  rewrite list_elem_of_In, in_flat_map. split.
  - intros (file_path & Hin & Hentry). exists file_path.
    rewrite list_elem_of_In. split; [done|].
    by apply search_one_exact, list_elem_of_In.
  - intros (file_path & Hin & Hentry). exists file_path.
    rewrite <- !list_elem_of_In. split; [done|]. by apply search_one_exact.
Qed.

Lemma search_results_exact_witness :
  ∃ results,
    collect_results rglob_all demo_cfg demo_os "os" "." "*" = Ok results ∧
    ∀ entry,
      entry ∈ results ↔
      ∃ file_path,
        file_path ∈ filter (λ p, is_Some (strip_parts ws p))
                           (map fst (map_to_list demo_tree)) ∧
        reports_line demo_cfg demo_os ws "os" file_path entry.
Proof.
  apply (search_results_exact rglob_all demo_cfg demo_os "os" "." "*");
    reflexivity.
Defined.

(** * Listing a directory *)











(** The file listed above is out of reach of the tools that read. *)
Example listed_but_denied :
  read_file demo_cfg env_os ".env" = "Access denied: Blocked pattern: .env" ∧
  list_directory demo_cfg env_os "."
  = "Directory: ." +:+ NL +:+ NL
    +:+ "Directories:" +:+ NL
    +:+ "  .git" +:+ NL +:+ "  out" +:+ NL +:+ "  src" +:+ NL
    +:+ NL +:+ "Files:" +:+ NL
    +:+ "  .env (5 bytes)" +:+ NL
    +:+ "  a.txt (17 bytes)" +:+ NL
    +:+ "  aaa.txt (3 bytes)" +:+ NL.
Proof. split; reflexivity. Qed.




(** * Moving a directory *)

Lemma nothing_below_check t (d : path) :
  forallb (λ entry, bool_decide (strip_parts d entry.1 = None))
          (map_to_list t) = true →
  nothing_below t d.
Proof.
  intros Hall q n Hq. rewrite forallb_forall in Hall.
  apply elem_of_map_to_list, list_elem_of_In in Hq.
  apply Hall in Hq. by apply bool_decide_eq_true in Hq.
Qed.

Lemma rekey_below (src dst below : path) :
  rekey src dst (src ++ below) = dst ++ below.
Proof.
  unfold rekey.
  by rewrite (proj2 (strip_parts_Some src (src ++ below) below)).
Qed.

Lemma rekey_other (src dst q : path) :
  strip_parts src q = None → rekey src dst q = q.
Proof. unfold rekey. by intros ->. Qed.

Lemma rekey_cases (src dst q : path) :
  (∃ below, q = src ++ below ∧ rekey src dst q = dst ++ below) ∨
  (strip_parts src q = None ∧ rekey src dst q = q).
Proof.
  unfold rekey. destruct (strip_parts src q) as [below|] eqn:E.
  - left. exists below. by apply strip_parts_Some in E.
  - by right.
Qed.

(** Two lists that start one text are one the start of the other. *)
Lemma app_eq_prefix (a b x y : path) :
  a ++ x = b ++ y → a `prefix_of` b ∨ b `prefix_of` a.
Proof.
  revert b. induction a as [|h a IH]; intros b H.
  - left. apply prefix_nil.
  - destruct b as [|h' b]; [right; apply prefix_nil|].
    injection H as -> H. destruct (IH _ H) as [Hp|Hp].
    + left. by apply prefix_cons.
    + right. by apply prefix_cons.
Qed.

Lemma strip_parts_prefix (root p : path) :
  root `prefix_of` p → is_Some (strip_parts root p).
Proof.
  intros [rest ->]. exists rest. by apply strip_parts_Some.
Qed.

(** The entries of the tree after a directory has been renamed. *)
Lemma os_rename_dir t (src dst : path) :
  t !! src = Some Dir →
  strip_parts src dst = None →
  nothing_below t dst →
  ∃ t',
    os_rename src dst t = Some t' ∧
    ∀ k v, t' !! k = Some v ↔ ∃ q, t !! q = Some v ∧ rekey src dst q = k.
Proof.
  intros Hsrc Hout Hfree. unfold os_rename. rewrite Hsrc, Hout.
  rewrite bool_decide_eq_false_2 by (by intros [? ?]).
  eexists. split; [done|]. intros k v.
  change (map ?f ?l) with (f <$> l).
  rewrite <- elem_of_list_to_map.
  - rewrite list_elem_of_fmap. split.
    + intros ([q v'] & [= -> ->] & Hin). exists q.
      split; [by apply elem_of_map_to_list|done].
    + intros (q & Hq & <-). exists (q, v).
      split; [done|by apply elem_of_map_to_list].
  - rewrite <- list_fmap_compose.
    change (fst ∘ _) with (rekey src dst ∘ (fst : path * node → path)).
    rewrite list_fmap_compose.
    apply NoDup_fmap_2_strong; [|apply NoDup_fst_map_to_list].
    intros x y Hx Hy Heq.
    apply list_elem_of_fmap in Hx as ([x' nx] & -> & Hx%elem_of_map_to_list).
    apply list_elem_of_fmap in Hy as ([y' ny] & -> & Hy%elem_of_map_to_list).
    cbn [fst] in *.
    destruct (rekey_cases src dst x') as [(bx & -> & Ex)|[Nx Ex]],
             (rekey_cases src dst y') as [(by_ & -> & Ey)|[Ny Ey]];
      rewrite Ex, Ey in Heq.
    + by apply app_inv_head in Heq as ->.
    + subst y'. apply Hfree in Hy.
      by rewrite (proj2 (strip_parts_Some dst (dst ++ bx) bx)) in Hy.
    + subst x'. apply Hfree in Hx.
      by rewrite (proj2 (strip_parts_Some dst (dst ++ by_) by_)) in Hx.
    + done.
Qed.

(** Where each entry is after the rename. *)
Lemma os_rename_dir_lookup t t' (src dst : path) :
  t !! src = Some Dir →
  strip_parts src dst = None →
  nothing_below t dst →
  os_rename src dst t = Some t' →
  (∀ below, t' !! (dst ++ below) = t !! (src ++ below)) ∧
  (∀ below, t' !! (src ++ below) = None) ∧
  (∀ q, strip_parts src q = None → strip_parts dst q = None →
        t' !! q = t !! q).
Proof.
  intros Hsrc Hout Hfree Hren.
  destruct (os_rename_dir t src dst Hsrc Hout Hfree) as (t'' & E & Hlook).
  rewrite Hren in E. injection E as <-.
  assert (Hnot : ∀ q n below, t !! q = Some n → q ≠ dst ++ below).
  { intros q n below Hq ->. apply Hfree in Hq.
    by rewrite (proj2 (strip_parts_Some dst (dst ++ below) below)) in Hq. }
  split_and!.
  - intros below. apply option_eq. intros v. rewrite Hlook. split.
    + intros (q & Hq & Hk).
      destruct (rekey_cases src dst q) as [(b & -> & Eq)|[Nq Eq]];
        rewrite Eq in Hk.
      * by apply app_inv_head in Hk as ->.
      * subst q. by destruct (Hnot _ _ below Hq).
    + intros Hv. exists (src ++ below). split; [done|apply rekey_below].
  - intros below. destruct (t' !! (src ++ below)) as [v|] eqn:E; [|done].
    apply Hlook in E as (q & Hq & Hk).
    destruct (rekey_cases src dst q) as [(b & -> & Eq)|[Nq Eq]];
      rewrite Eq in Hk.
    + destruct (app_eq_prefix _ _ _ _ Hk) as [Hp|Hp].
      * destruct Hp as [rest ->]. by destruct (Hnot _ _ rest Hsrc).
      * apply strip_parts_prefix in Hp as [? Hp]. congruence.
    + subst q. by rewrite (proj2 (strip_parts_Some src (src ++ below) below))
        in Nq.
  - intros q Ns Nd. apply option_eq. intros v. rewrite Hlook. split.
    + intros (q' & Hq' & Hk).
      destruct (rekey_cases src dst q') as [(b & -> & Eq)|[Nq Eq]];
        rewrite Eq in Hk.
      * subst q. by rewrite (proj2 (strip_parts_Some dst (dst ++ b) b)) in Nd.
      * by subst q'.
    + intros Hv. exists q. split; [done|by apply rekey_other].
Qed.

(** X27. [move_file] moves a directory with all that is in it: when the
    source is a directory, the destination is free and outside the source
    and the directory above the destination is there, every entry below
    the source is found at the same place below the destination, nothing
    is left at the source, and the rest of the disk stays as it was.  Only
    the two paths given pass through the policy, not the entries moved. *)
Theorem move_directory cfg os source destination s d :
  (is_path_allowed cfg os source).1 = true →
  (is_path_allowed cfg os destination).1 = true →
  resolve os source = Ok s →
  resolve os destination = Ok d →
  tree os !! s = Some Dir →
  strip_parts s d = None →
  nothing_below (tree os) d →
  dirs_down_to (tree os) (parent d) →
  (move_file cfg source destination os).2
  = "Moved: " +:+ source +:+ " to " +:+ destination ∧
  (∀ below, tree (move_file cfg source destination os).1 !! (d ++ below)
            = tree os !! (s ++ below)) ∧
  (∀ below, tree (move_file cfg source destination os).1 !! (s ++ below)
            = None) ∧
  (∀ q, strip_parts s q = None → strip_parts d q = None →
        tree (move_file cfg source destination os).1 !! q = tree os !! q).
Proof.
  intros Hsrc Hdst Hs Hd Hdir Hout Hfree Hdirs.
  destruct (os_rename_dir (tree os) s d Hdir Hout Hfree) as (t' & Hren & _).
  assert (Hmoved : move_file cfg source destination os
                   = (with_tree os t',
                      "Moved: " +:+ source +:+ " to " +:+ destination)).
  { unfold move_file.
    destruct (is_path_allowed cfg os source) as [a1 r1].
    destruct (is_path_allowed cfg os destination) as [a2 r2].
    cbn in Hsrc, Hdst. subst a1 a2. cbn [negb]. run_io.
    rewrite Hs, Hd. unfold path_exists.
    rewrite Hdir; cbn beta iota; cbn [negb].
    assert (Hnone : tree os !! d = None).
    { destruct (tree os !! d) as [n|] eqn:E; [|done].
      apply Hfree in E. by rewrite (proj2 (strip_parts_Some d d [])) in E
        by (by rewrite app_nil_r). }
    rewrite Hnone; cbn beta iota.
    unfold mkdir_parents. rewrite (mkdir_from_noop _ _ _ Hdirs).
    unfold rename. cbn [tree with_tree]. rewrite with_tree_same.
    by rewrite Hren. }
  rewrite Hmoved. cbn [fst snd tree with_tree]. split; [done|].
  by apply os_rename_dir_lookup.
Qed.

Lemma move_directory_witness :
  (move_file demo_cfg "src" "lib" secret_os).2 = "Moved: src to lib" ∧
  tree (move_file demo_cfg "src" "lib" secret_os).1 !! (ws ++ ["lib"; ".env"])
  = Some (File (Text "KEY=1")).
Proof.
  destruct (move_directory demo_cfg secret_os "src" "lib"
              (ws ++ ["src"]) (ws ++ ["lib"]))
    as (Hmsg & Hbelow & _); try reflexivity.
  - apply nothing_below_check. vm_compute. reflexivity.
  - unfold dirs_down_to. by repeat constructor.
  - split; [done|]. etrans; [exact (Hbelow [".env"])|reflexivity].
Defined.

(** The file moved along is one that no tool may read, before or after. *)
Example moved_but_denied :
  read_file demo_cfg secret_os "src/.env"
  = "Access denied: Blocked pattern: .env" ∧
  read_file demo_cfg (move_file demo_cfg "src" "lib" secret_os).1 "lib/.env"
  = "Access denied: Blocked pattern: .env".
Proof. split; reflexivity. Qed.
